(** * Response cache and data orchestrator of the savings-group front-end

    A shallow embedding of [apiCache.js] (class [ApiCache]) and
    [dataManager.js] (object [dataManager]), and the properties of the
    cache's read, write, invalidation and subscription paths.

    Conventions of the embedding:
    - JavaScript values are the inductive [JsValue]; numbers are integers
      ([Z]), strings are sequences of 8-bit code units;
    - [this.memory] and [this.listeners] are finite maps keyed by strings
      (names inherited from [Object.prototype] are not modelled: every key
      the cache builds starts with [CACHE_KEY_PREFIX]);
    - the platform ([fetch], [Date.now], the subscribers' callbacks,
      [String.prototype.toLowerCase]) is a record [Env] of oracles plus a
      clock and two logs kept in the state [World];
    - an [async] method is a state-and-exception computation [M A]; each
      call runs without interleaving between its [await]s;
    - [getStats] and [preloadData] are not embedded: no property below
      reads them. *)

From stdpp Require Import gmap strings list pretty.
From Stdlib Require Import ZArith Ascii Permutation.

Local Open Scope Z_scope.

(** ** JavaScript values *)

Module Js.

#[local] Set Warnings "-register-all".

Inductive JsValue : Type :=
| JUndefined
| JNull
| JBool (b : bool)
| JNum (n : Z)
| JStr (s : string)
| JArr (xs : list JsValue)
| JObj (props : list (string * JsValue)).

(** ToBoolean: what [if (v)], [!v] and [a && b] test. *)
Definition truthy (v : JsValue) : bool :=
  match v with
  | JUndefined | JNull => false
  | JBool b => b
  | JNum n => negb (n =? 0)
  | JStr s => negb (String.eqb s "")
  | JArr _ | JObj _ => true
  end.

(** [Array.prototype.join] on strings. *)
Fixpoint join (sep : string) (l : list string) : string :=
  match l with
  | [] => ""
  | [s] => s
  | s :: l' => s +:+ sep +:+ join sep l'
  end.

(** ToString: what a template literal [`${v}`] yields.  An array prints
    its elements joined by commas, [null] and [undefined] elements as the
    empty string. *)
Fixpoint toString (v : JsValue) : string :=
  match v with
  | JUndefined => "undefined"
  | JNull => "null"
  | JBool true => "true"
  | JBool false => "false"
  | JNum n => pretty n
  | JStr s => s
  | JArr xs =>
      join "," ((fix elems (l : list JsValue) : list string :=
                   match l with
                   | [] => []
                   | x :: l' =>
                       match x with
                       | JUndefined | JNull => ""
                       | _ => toString x
                       end :: elems l'
                   end) xs)
  | JObj _ => "[object Object]"
  end.

(** Own-property lookup [o.name] in a property list. *)
Fixpoint lookupProp (name : string) (props : list (string * JsValue)) : JsValue :=
  match props with
  | [] => JUndefined
  | (k, v) :: rest => if String.eqb k name then v else lookupProp name rest
  end.

(** [obj[name] = v]: overwrite in place when the property exists, append
    it otherwise. *)
Fixpoint setProp (name : string) (v : JsValue) (props : list (string * JsValue))
  : list (string * JsValue) :=
  match props with
  | [] => [(name, v)]
  | (k, w) :: rest =>
      if String.eqb k name then (k, v) :: rest else (k, w) :: setProp name v rest
  end.

(** Object spread [{...a, ...b}]. *)
Definition spread (a b : list (string * JsValue)) : list (string * JsValue) :=
  fold_left (fun acc kv => setProp kv.1 kv.2 acc) b a.

(** [String.prototype.includes]. *)
Fixpoint includes (s q : string) : bool :=
  String.prefix q s ||
  match s with
  | EmptyString => false
  | String _ s' => includes s' q
  end.

(** Stable insertion by a string sort key, under the code-unit order of
    [Array.prototype.sort] without a comparator. *)
Section Sort.
Context {A : Type} (key : A -> string).

Fixpoint insertSorted (x : A) (l : list A) : list A :=
  match l with
  | [] => [x]
  | y :: l' =>
      if String.ltb (key y) (key x) then y :: insertSorted x l'
      else x :: y :: l'
  end.

Definition sortBy (l : list A) : list A := foldr insertSorted [] l.
End Sort.

End Js.

Import Js.

(** ** apiCache.js *)

Definition DEFAULT_TTL : Z := 60 * 60 * 1000.
Definition CACHE_KEY_PREFIX : string := "api_cache_".

(** A filter object is the list of its own properties in the order
    [Object.entries] enumerates them. *)
Definition Filters : Type := list (string * JsValue).

(** The string the default comparator of [sort()] compares an entry
    [[k, v]] by: the array's ToString. *)
Definition entrySortString (e : string * JsValue) : string :=
  toString (JArr [JStr e.1; e.2]).

Definition getCacheKey (endpoint : string) (filters : Filters) : string :=
  let filterStr :=
    join "&" (map (fun e => e.1 +:+ "=" +:+ toString e.2)
                  (sortBy entrySortString filters)) in
  CACHE_KEY_PREFIX +:+ endpoint +:+
    (if truthy (JStr filterStr) then "_" +:+ filterStr else "").

(** An entry of [this.memory]: [{ data, expiresAt }]. *)
Record CacheEntry : Type := { data : JsValue; expiresAt : Z }.

(** A subscriber callback is known by its reference: [cb !== callback]
    compares references. *)
Definition CallbackRef : Type := nat.

(** What the platform's [fetch(url, fetchOptions)] is called with; the
    body is the value handed to [JSON.stringify]. *)
Record Request : Type :=
  { url : string;
    reqMethod : string;
    headers : list (string * string);
    reqBody : option JsValue }.

(** The response object: [response.ok], [response.statusText] and what
    [response.json()] decodes ([None] when decoding rejects). *)
Record HttpResponse : Type :=
  { ok : bool; statusText : string; json : option JsValue }.

Inductive TransportResult : Type :=
| Rejects (reason : string)
| Resolves (r : HttpResponse).

Inductive Exception : Type :=
| Error (message : string)
| TypeError (message : string)
| SyntaxError
| NetworkError (reason : string)
| CallbackThrew (cb : CallbackRef).

(** The platform: the [n]-th remote call (counting from 0) with request
    [req] takes [fst (transport n req)] milliseconds and yields
    [snd (transport n req)]; [callbackThrows cb d] tells whether callback
    [cb] throws when invoked with [d]. *)
Record Env : Type :=
  { transport : nat -> Request -> Z * TransportResult;
    callbackThrows : CallbackRef -> JsValue -> bool;
    toLowerCase : string -> string }.

(** The singleton [apiCache] together with the clock and two logs: the
    remote calls made so far and the callback invocations so far. *)
Record World : Type :=
  { memory : gmap string CacheEntry;
    listeners : gmap string (list CallbackRef);
    now : Z;
    traffic : list (Request * TransportResult);
    fired : list (CallbackRef * JsValue) }.

Definition setMemory (m : gmap string CacheEntry) (w : World) : World :=
  {| memory := m; listeners := listeners w; now := now w;
     traffic := traffic w; fired := fired w |}.

Definition setListeners (l : gmap string (list CallbackRef)) (w : World) : World :=
  {| memory := memory w; listeners := l; now := now w;
     traffic := traffic w; fired := fired w |}.

Definition recordCall (req : Request) (elapsed : Z) (res : TransportResult)
    (w : World) : World :=
  {| memory := memory w; listeners := listeners w; now := now w + elapsed;
     traffic := traffic w ++ [(req, res)]; fired := fired w |}.

Definition recordFired (cb : CallbackRef) (d : JsValue) (w : World) : World :=
  {| memory := memory w; listeners := listeners w; now := now w;
     traffic := traffic w; fired := fired w ++ [(cb, d)] |}.

(** ** Computations: state plus exceptions *)

Inductive Outcome (A : Type) : Type :=
| Return (a : A)
| Throw (e : Exception).
Arguments Return {A} a.
Arguments Throw {A} e.

Definition M (A : Type) : Type := World -> Outcome A * World.

Definition ret {A} (a : A) : M A := fun w => (Return a, w).
Definition throw {A} (e : Exception) : M A := fun w => (Throw e, w).
Definition bind {A B} (m : M A) (k : A -> M B) : M B :=
  fun w => match m w with
           | (Return a, w') => k a w'
           | (Throw e, w') => (Throw e, w')
           end.
Definition tryCatch {A} (m : M A) (handler : Exception -> M A) : M A :=
  fun w => match m w with
           | (Return a, w') => (Return a, w')
           | (Throw e, w') => handler e w'
           end.
Definition liftOutcome {A} (o : Outcome A) : M A := fun w => (o, w).

Notation "'let*' x ':=' m 'in' k" := (bind m (fun x => k))
  (at level 10, x name, m at level 100, k at level 200).
Notation "m ';;' k" := (bind m (fun _ => k))
  (at level 100, k at level 200, right associativity).

Definition isThrow {A} (o : Outcome A) : Prop :=
  match o with Throw _ => True | Return _ => False end.

(** ** class ApiCache *)

Record FetchOptions : Type :=
  { ttl : Z;
    forceRefresh : bool;
    filters : Filters;
    method : string;
    body : JsValue }.

(** [options = {}]: every field at its default. *)
Definition defaultOptions : FetchOptions :=
  {| ttl := DEFAULT_TTL; forceRefresh := false; filters := [];
     method := "GET"; body := JNull |}.

Definition jsonHeaders : list (string * string) :=
  [("Content-Type", "application/json")].

(** An unsubscribe closure: it captures [cacheKey] and [callback]. *)
Record Unsubscribe : Type :=
  { unsubKey : string; unsubCallback : CallbackRef }.

Definition isValidCache (key : string) : M bool := fun w =>
  match memory w !! key with
  | None => (Return false, w)
  | Some e =>
      if negb (expiresAt e =? 0) && (now w >? expiresAt e)
      then (Return false, setMemory (delete key (memory w)) w)
      else (Return true, w)
  end.

Definition getCached (key : string) : M JsValue := fun w =>
  match memory w !! key with
  | Some e => (Return (data e), w)
  | None => (Return JNull, w)
  end.

Definition setCached (key : string) (d : JsValue) (ttl : Z) : M unit := fun w =>
  (Return tt,
   setMemory (<[key := {| data := d; expiresAt := now w + ttl |}]> (memory w)) w).

Definition invalidate (endpoint : string) (filters : Filters) : M unit := fun w =>
  let cacheKey := getCacheKey endpoint filters in
  (Return tt, setMemory (delete cacheKey (memory w)) w).

Definition invalidatePattern (pattern : string) : M unit := fun w =>
  (Return tt,
   setMemory (filter (fun kv => includes kv.1 pattern = false) (memory w)) w).

Definition clear : M unit := fun w => (Return tt, setMemory ∅ w).

Definition onUpdate (cacheKey : string) (callback : CallbackRef) : M Unsubscribe :=
  fun w =>
    let registered := default [] (listeners w !! cacheKey) in
    (Return {| unsubKey := cacheKey; unsubCallback := callback |},
     setListeners (<[cacheKey := registered ++ [callback]]> (listeners w)) w).

(** Calling the closure [onUpdate] returned. *)
Definition unsubscribe (h : Unsubscribe) : M unit := fun w =>
  match listeners w !! unsubKey h with
  | Some l =>
      (Return tt,
       setListeners
         (<[unsubKey h := filter (fun cb => cb <> unsubCallback h) l]> (listeners w)) w)
  | None => (Throw (TypeError "Cannot read properties of undefined"), w)
  end.

Section WithEnv.
Context (env : Env).

(** The platform's [fetch]: one remote call; a rejected promise is an
    exception at the [await]. *)
Definition remoteFetch (req : Request) : M HttpResponse := fun w =>
  let '(elapsed, res) := transport env (length (traffic w)) req in
  let w' := recordCall req elapsed res w in
  match res with
  | Rejects reason => (Throw (NetworkError reason), w')
  | Resolves r => (Return r, w')
  end.

(** [await response.json()]. *)
Definition responseJson (r : HttpResponse) : M JsValue :=
  match json r with
  | Some d => ret d
  | None => throw SyntaxError
  end.

(** [callback(data)]. *)
Definition invoke (d : JsValue) (cb : CallbackRef) : M unit := fun w =>
  let w' := recordFired cb d w in
  if callbackThrows env cb d then (Throw (CallbackThrew cb), w')
  else (Return tt, w').

(** [array.forEach(f)]. *)
Fixpoint forEach {A} (f : A -> M unit) (l : list A) : M unit :=
  match l with
  | [] => ret tt
  | x :: l' => f x ;; forEach f l'
  end.

Definition notifyListeners (cacheKey : string) (d : JsValue) : M unit := fun w =>
  match listeners w !! cacheKey with
  | Some l => forEach (invoke d) l w
  | None => (Return tt, w)
  end.

(** [fetchOptions], with the URL it is sent to: the body is set only
    when [body] is truthy. *)
Definition fetchRequest (endpoint : string) (o : FetchOptions) : Request :=
  {| url := endpoint; reqMethod := method o; headers := jsonHeaders;
     reqBody := if truthy (body o) then Some (body o) else None |}.

(** The [try] block of [fetch]. *)
Definition fetchRemote (endpoint cacheKey : string) (o : FetchOptions) : M JsValue :=
  let fetchOptions := fetchRequest endpoint o in
  let* response := remoteFetch fetchOptions in
  if negb (ok response)
  then throw (Error ("API Error: " +:+ statusText response))
  else
    let* d := responseJson response in
    setCached cacheKey d (ttl o) ;;
    notifyListeners cacheKey d ;;
    ret d.

(** The [catch] block of [fetch]. *)
Definition fetchCatch (cacheKey : string) (error : Exception) : M JsValue := fun w =>
  match memory w !! cacheKey with
  | Some staleData => (Return (data staleData), w)
  | None => (Throw error, w)
  end.

Definition fetch (endpoint : string) (o : FetchOptions) : M JsValue :=
  let cacheKey := getCacheKey endpoint (filters o) in
  let* hit := (if forceRefresh o then ret false else isValidCache cacheKey) in
  if hit then getCached cacheKey
  else tryCatch (fetchRemote endpoint cacheKey o) (fetchCatch cacheKey).

End WithEnv.

(** ** dataManager.js *)

Definition BASE_URL : string := "https://sheetdb.io/api/v1/254cxsbebm3n7".

Definition ENDPOINTS_MEMBERS : string := BASE_URL +:+ "?sheet=Member List".
Definition ENDPOINTS_TRANSACTIONS : string := BASE_URL +:+ "?sheet=Transactions".
Definition ENDPOINTS_LOANS : string := BASE_URL +:+ "?sheet=Loan Details".

Definition CACHE_TTL_MEMBERS : Z := 30 * 60 * 1000.
Definition CACHE_TTL_TRANSACTIONS : Z := 15 * 60 * 1000.
Definition CACHE_TTL_LOANS : Z := 15 * 60 * 1000.

Definition dquote : string := String "034"%char EmptyString.

(** Property read [v.name]: [null] and [undefined] have no properties,
    primitives and arrays have none of the record fields read here. *)
Definition getProp (v : JsValue) (name : string) : Outcome JsValue :=
  match v with
  | JUndefined | JNull =>
      Throw (TypeError ("Cannot read properties of " +:+ toString v))
  | JObj props => Return (lookupProp name props)
  | _ => Return JUndefined
  end.

(** [v === s] for a string [s]. *)
Definition strictEqString (v : JsValue) (s : string) : bool :=
  match v with
  | JStr t => String.eqb t s
  | _ => false
  end.

(** [array.find(pred)] and [array.filter(pred)] with a predicate that can
    throw. *)
Fixpoint findM (pred : JsValue -> Outcome bool) (l : list JsValue)
  : Outcome JsValue :=
  match l with
  | [] => Return JUndefined
  | x :: l' =>
      match pred x with
      | Throw e => Throw e
      | Return true => Return x
      | Return false => findM pred l'
      end
  end.

Fixpoint filterM (pred : JsValue -> Outcome bool) (l : list JsValue)
  : Outcome (list JsValue) :=
  match l with
  | [] => Return []
  | x :: l' =>
      match pred x with
      | Throw e => Throw e
      | Return b =>
          match filterM pred l' with
          | Throw e => Throw e
          | Return r => Return (if b then x :: r else r)
          end
      end
  end.

(** [data.find(pred)] / [data.filter(pred)] on an arbitrary value: only
    arrays have the method. *)
Definition arrayFind (v : JsValue) (pred : JsValue -> Outcome bool) : Outcome JsValue :=
  match v with
  | JArr xs => findM pred xs
  | JUndefined | JNull =>
      Throw (TypeError ("Cannot read properties of " +:+ toString v))
  | _ => Throw (TypeError "find is not a function")
  end.

Definition arrayFilter (v : JsValue) (pred : JsValue -> Outcome bool) : Outcome JsValue :=
  match v with
  | JArr xs =>
      match filterM pred xs with
      | Return r => Return (JArr r)
      | Throw e => Throw e
      end
  | JUndefined | JNull =>
      Throw (TypeError ("Cannot read properties of " +:+ toString v))
  | _ => Throw (TypeError "filter is not a function")
  end.

(** [(x) => x.Name === memberName]. *)
Definition nameIs (memberName : string) (x : JsValue) : Outcome bool :=
  match getProp x "Name" with
  | Return n => Return (strictEqString n memberName)
  | Throw e => Throw e
  end.

Section DataManager.
Context (env : Env).

Definition getMembers (forceRefresh : bool) : M JsValue :=
  fetch env ENDPOINTS_MEMBERS
    {| ttl := CACHE_TTL_MEMBERS; forceRefresh := forceRefresh;
       filters := []; method := "GET"; body := JNull |}.

Definition getTransactions (forceRefresh : bool) : M JsValue :=
  fetch env ENDPOINTS_TRANSACTIONS
    {| ttl := CACHE_TTL_TRANSACTIONS; forceRefresh := forceRefresh;
       filters := []; method := "GET"; body := JNull |}.

Definition getLoans (forceRefresh : bool) : M JsValue :=
  fetch env ENDPOINTS_LOANS
    {| ttl := CACHE_TTL_LOANS; forceRefresh := forceRefresh;
       filters := []; method := "GET"; body := JNull |}.

(** [(m) => m.Name && m.Name.toLowerCase().includes(q)], as the
    truthiness [filter] takes of it. *)
Definition memberMatches (q : string) (m : JsValue) : Outcome bool :=
  match getProp m "Name" with
  | Throw e => Throw e
  | Return n =>
      if truthy n then
        match n with
        | JStr s => Return (includes (toLowerCase env s) q)
        | _ => Throw (TypeError "toLowerCase is not a function")
        end
      else Return false
  end.

Definition searchMembers (query : string) : M JsValue :=
  let* d := getCached (getCacheKey ENDPOINTS_MEMBERS []) in
  if negb (truthy d) then ret (JArr [])
  else if negb (truthy (JStr query)) then ret d
  else
    let q := toLowerCase env query in
    liftOutcome (arrayFilter d (memberMatches q)).

Definition searchTransactions (memberName : string) : M JsValue :=
  let* d := getCached (getCacheKey ENDPOINTS_TRANSACTIONS []) in
  if negb (truthy d) then ret (JArr [])
  else if negb (truthy (JStr memberName)) then ret d
  else liftOutcome (arrayFilter d (nameIs memberName)).

Definition getLoanByMember (memberName : string) : M JsValue :=
  let* d := getCached (getCacheKey ENDPOINTS_LOANS []) in
  if negb (truthy d) then ret JNull
  else liftOutcome (arrayFind d (nameIs memberName)).

Definition getLoansByMember (memberName : string) : M JsValue :=
  let* d := getCached (getCacheKey ENDPOINTS_LOANS []) in
  if negb (truthy d) then ret (JArr [])
  else liftOutcome (arrayFilter d (nameIs memberName)).

(** [{ data: [x] }] and [{ data: x }]. *)
Definition dataRows (x : JsValue) : JsValue := JObj [("data", JArr [x])].
Definition dataRow (x : JsValue) : JsValue := JObj [("data", x)].

Definition addMember (memberData : JsValue) : M JsValue :=
  let* response :=
    remoteFetch env
      {| url := ENDPOINTS_MEMBERS; reqMethod := "POST"; headers := jsonHeaders;
         reqBody := Some (dataRows memberData) |} in
  if negb (ok response) then throw (Error "Failed to add member")
  else
    invalidate ENDPOINTS_MEMBERS [] ;;
    responseJson response.

Definition addTransaction (transactionData : JsValue) : M JsValue :=
  let* response :=
    remoteFetch env
      {| url := ENDPOINTS_TRANSACTIONS +:+ "&mode=append"; reqMethod := "POST";
         headers := jsonHeaders; reqBody := Some (dataRows transactionData) |} in
  if negb (ok response) then throw (Error "Failed to add transaction")
  else
    invalidate ENDPOINTS_TRANSACTIONS [] ;;
    responseJson response.

Definition updateLoan (loanId : JsValue) (loanData : JsValue) : M JsValue :=
  let url := BASE_URL +:+ "/Id/" +:+ toString loanId +:+ "?sheet=Loan Details" in
  let* response :=
    remoteFetch env
      {| url := url; reqMethod := "PUT"; headers := jsonHeaders;
         reqBody := Some (dataRow loanData) |} in
  if negb (ok response) then throw (Error "Failed to update loan")
  else
    invalidate ENDPOINTS_LOANS [] ;;
    responseJson response.

Definition addLoan (loanData : JsValue) : M JsValue :=
  let* response :=
    remoteFetch env
      {| url := ENDPOINTS_LOANS; reqMethod := "POST"; headers := jsonHeaders;
         reqBody := Some (dataRows loanData) |} in
  if negb (ok response) then throw (Error "Failed to add loan")
  else
    invalidate ENDPOINTS_LOANS [] ;;
    responseJson response.

Definition deleteMember (memberName : string) : M JsValue :=
  let url := BASE_URL +:+ "/Name/" +:+ memberName +:+ "?sheet=Member List" in
  let* response :=
    remoteFetch env
      {| url := url; reqMethod := "DELETE"; headers := []; reqBody := None |} in
  if negb (ok response) then throw (Error "Failed to delete member")
  else
    invalidate ENDPOINTS_MEMBERS [] ;;
    invalidate ENDPOINTS_TRANSACTIONS [] ;;
    responseJson response.

Definition deleteTransactions (memberName : string) : M JsValue :=
  let url := BASE_URL +:+ "/Name/" +:+ memberName +:+ "?sheet=Transactions" in
  let* response :=
    remoteFetch env
      {| url := url; reqMethod := "DELETE"; headers := []; reqBody := None |} in
  if negb (ok response) then throw (Error "Failed to delete transactions")
  else
    invalidate ENDPOINTS_TRANSACTIONS [] ;;
    responseJson response.

Definition deleteTransactionById (id : JsValue) : M JsValue :=
  let url := BASE_URL +:+ "?sheet=Transactions&Id=" +:+ toString id in
  let* response :=
    remoteFetch env
      {| url := url; reqMethod := "DELETE"; headers := []; reqBody := None |} in
  if negb (ok response) then throw (Error "Failed to delete transaction")
  else responseJson response.

Definition addDeletedMember (d : JsValue) : M JsValue :=
  let url := BASE_URL +:+ "?sheet=Deleted Members" in
  let* response :=
    remoteFetch env
      {| url := url; reqMethod := "POST"; headers := jsonHeaders;
         reqBody := Some (dataRows d) |} in
  if negb (ok response) then throw (Error "Failed to archive deleted member")
  else responseJson response.

Definition clearCache : M unit := clear.

Definition onMembersUpdate (callback : CallbackRef) : M Unsubscribe :=
  onUpdate (getCacheKey ENDPOINTS_MEMBERS []) callback.

Definition onTransactionsUpdate (callback : CallbackRef) : M Unsubscribe :=
  onUpdate (getCacheKey ENDPOINTS_TRANSACTIONS []) callback.

Definition onLoansUpdate (callback : CallbackRef) : M Unsubscribe :=
  onUpdate (getCacheKey ENDPOINTS_LOANS []) callback.

(** The request of step 3 of [updateMember], for the record found. *)
Definition updateMemberRequest (member : JsValue) (updates : list (string * JsValue))
  : Outcome Request :=
  match getProp member "Id" with
  | Throw e => Throw e
  | Return id =>
      Return
        {| url := BASE_URL +:+ "/Id/" +:+ toString id +:+ "?sheet=Member List";
           reqMethod := "PUT"; headers := jsonHeaders;
           reqBody :=
             Some (dataRow (JObj (spread
                                    (match member with JObj p => p | _ => [] end)
                                    updates))) |}
  end.

Definition updateMember (memberName : string) (updates : list (string * JsValue))
  : M JsValue :=
  let* members := getMembers true in
  let* member := liftOutcome (arrayFind members (nameIs memberName)) in
  let* id := (if truthy member then liftOutcome (getProp member "Id")
              else ret JUndefined) in
  if negb (truthy member) || negb (truthy id)
  then throw (Error ("Member " +:+ dquote +:+ memberName +:+ dquote
                     +:+ " not found or missing Id"))
  else
    let* req := liftOutcome (updateMemberRequest member updates) in
    let* response := remoteFetch env req in
    if negb (ok response) then throw (Error "Failed to update member")
    else
      invalidate ENDPOINTS_MEMBERS [] ;;
      responseJson response.

End DataManager.

(** ** Vocabulary of the statements *)

(** The callbacks a notification reaches when [forEach] runs over [l]:
    all of them up to and including the first one that throws. *)
Fixpoint invokedPrefix (throws : CallbackRef -> bool) (l : list CallbackRef)
  : list CallbackRef :=
  match l with
  | [] => []
  | cb :: l' => cb :: (if throws cb then [] else invokedPrefix throws l')
  end.

(** The first callback of [l] that throws, if any. *)
Fixpoint firstThrower (throws : CallbackRef -> bool) (l : list CallbackRef)
  : option CallbackRef :=
  match l with
  | [] => None
  | cb :: l' => if throws cb then Some cb else firstThrower throws l'
  end.

(** The state after callbacks [cbs] were invoked with [d], in order. *)
Definition firedAll (cbs : list CallbackRef) (d : JsValue) (w : World) : World :=
  {| memory := memory w; listeners := listeners w; now := now w;
     traffic := traffic w; fired := fired w ++ map (fun cb => (cb, d)) cbs |}.

(** The state after a successful refresh of [key]: entry stored at the
    time the response arrived, one remote call logged, the reached
    callbacks fired. *)
Definition refreshed (env : Env) (key : string) (req : Request) (elapsed : Z)
    (r : HttpResponse) (d : JsValue) (ttl : Z) (w : World) : World :=
  {| memory := <[key := {| data := d; expiresAt := now w + elapsed + ttl |}]> (memory w);
     listeners := listeners w;
     now := now w + elapsed;
     traffic := traffic w ++ [(req, Resolves r)];
     fired := fired w ++
              map (fun cb => (cb, d))
                  (invokedPrefix (fun cb => callbackThrows env cb d)
                                 (default [] (listeners w !! key))) |}.

(** The orchestrator's write operations, with their arguments. *)
Inductive WriteOp : Type :=
| AddMember (memberData : JsValue)
| AddTransaction (transactionData : JsValue)
| AddLoan (loanData : JsValue)
| UpdateLoan (loanId loanData : JsValue)
| DeleteMember (memberName : string)
| DeleteTransactions (memberName : string)
| UpdateMember (memberName : string) (updates : list (string * JsValue)).

Definition runWrite (env : Env) (op : WriteOp) : M JsValue :=
  match op with
  | AddMember d => addMember env d
  | AddTransaction d => addTransaction env d
  | AddLoan d => addLoan env d
  | UpdateLoan i d => updateLoan env i d
  | DeleteMember n => deleteMember env n
  | DeleteTransactions n => deleteTransactions env n
  | UpdateMember n u => updateMember env n u
  end.

Definition isUpdateMember (op : WriteOp) : bool :=
  match op with UpdateMember _ _ => true | _ => false end.

(** The options [getMembers(true)] passes to [fetch]. *)
Definition membersForced : FetchOptions :=
  {| ttl := CACHE_TTL_MEMBERS; forceRefresh := true; filters := [];
     method := "GET"; body := JNull |}.

Definition membersKey : string := getCacheKey ENDPOINTS_MEMBERS [].
Definition transactionsKey : string := getCacheKey ENDPOINTS_TRANSACTIONS [].

(** The error [updateMember] raises for a missing member. *)
Definition notFound (memberName : string) : Exception :=
  Error ("Member " +:+ dquote +:+ memberName +:+ dquote +:+ " not found or missing Id").

Definition loansKey : string := getCacheKey ENDPOINTS_LOANS [].

(** The endpoints whose cache key a write invalidates once its remote
    call has succeeded, in the order of the [invalidate] calls. *)
Definition invalidatedEndpoints (op : WriteOp) : list string :=
  match op with
  | AddMember _ => [ENDPOINTS_MEMBERS]
  | AddTransaction _ => [ENDPOINTS_TRANSACTIONS]
  | AddLoan _ => [ENDPOINTS_LOANS]
  | UpdateLoan _ _ => [ENDPOINTS_LOANS]
  | DeleteMember _ => [ENDPOINTS_MEMBERS; ENDPOINTS_TRANSACTIONS]
  | DeleteTransactions _ => [ENDPOINTS_TRANSACTIONS]
  | UpdateMember _ _ => [ENDPOINTS_MEMBERS]
  end.

(** What [await response.json()] gives for a response. *)
Definition decoded (r : HttpResponse) : Outcome JsValue :=
  match json r with
  | Some d => Return d
  | None => Throw SyntaxError
  end.

(** A predicate call that returned a truthy value. *)
Definition holds (o : Outcome bool) : bool :=
  match o with
  | Return true => true
  | _ => false
  end.

Definition isObject (v : JsValue) : Prop := exists props, v = JObj props.

(** A parameter name without a comma. *)
Fixpoint noComma (s : string) : bool :=
  match s with
  | EmptyString => true
  | String c s' => negb (Ascii.eqb c ",") && noComma s'
  end.

(** The exception the [try] block of [fetch] raises for a remote result,
    if any: the promise rejects, the status is not a success, or the body
    does not decode. *)
Definition remoteFailure (res : TransportResult) : option Exception :=
  match res with
  | Rejects reason => Some (NetworkError reason)
  | Resolves r =>
      if negb (ok r) then Some (Error ("API Error: " +:+ statusText r))
      else match json r with
           | None => Some SyntaxError
           | Some _ => None
           end
  end.

(** ** Scenarios

    A scripted platform for the concrete runs below: the [n]-th remote
    call gets the [n]-th scripted result (the network is down once the
    script is exhausted), the callbacks listed in [throwers] throw, and
    lower-casing is the ASCII one. *)

Definition asciiLower (s : string) : string :=
  String.string_of_list_ascii
    (map (fun c => let n := nat_of_ascii c in
                   if (65 <=? n)%nat && (n <=? 90)%nat then ascii_of_nat (n + 32) else c)
         (String.list_ascii_of_string s)).

Definition scripted (results : list (Z * TransportResult)) (throwers : list CallbackRef)
  : Env :=
  {| transport := fun n _ => nth n results (0, Rejects "Failed to fetch");
     callbackThrows := fun cb _ => bool_decide (cb ∈ throwers);
     toLowerCase := asciiLower |}.

Definition emptyWorld : World :=
  {| memory := ∅; listeners := ∅; now := 0; traffic := []; fired := [] |}.

Definition okResponse (d : JsValue) : TransportResult :=
  Resolves {| ok := true; statusText := "OK"; json := Some d |}.

Definition errorHttp : HttpResponse :=
  {| ok := false; statusText := "Internal Server Error";
     json := Some (JObj [("error", JStr "server")]) |}.

Definition errorResponse : TransportResult := Resolves errorHttp.

Definition forced : FetchOptions :=
  {| ttl := 1000; forceRefresh := true; filters := []; method := "GET"; body := JNull |}.

Definition unforced : FetchOptions :=
  {| ttl := 1000; forceRefresh := false; filters := []; method := "GET"; body := JNull |}.

Definition alice : JsValue :=
  JObj [("Id", JStr "1"); ("Name", JStr "Alice"); ("Status", JStr "Active")].

Definition bob : JsValue :=
  JObj [("Id", JStr "2"); ("Name", JStr "Bob"); ("Status", JStr "Active")].

(** A member row without a [Name] column and one without an [Id]. *)
Definition nameless : JsValue := JObj [("Id", JStr "3")].
Definition carolNoId : JsValue := JObj [("Name", JStr "Carol")].

Definition bobLoan : JsValue :=
  JObj [("Name", JStr "Bob"); ("LoanAmount", JStr "10000")].

Definition bobPayment : JsValue :=
  JObj [("Id", JStr "7"); ("Name", JStr "Bob"); ("Amount", JStr "500")].

(** A world after a preload at time 0, seen at time 20: the three
    resources are cached and fresh. *)
Definition cachedWorld : World :=
  {| memory :=
       <[ getCacheKey ENDPOINTS_MEMBERS [] :=
            {| data := JArr [alice; nameless; bob]; expiresAt := CACHE_TTL_MEMBERS |} ]>
       (<[ getCacheKey ENDPOINTS_TRANSACTIONS [] :=
            {| data := JArr [bobPayment]; expiresAt := CACHE_TTL_TRANSACTIONS |} ]>
       (<[ getCacheKey ENDPOINTS_LOANS [] :=
            {| data := JArr [bobLoan]; expiresAt := CACHE_TTL_LOANS |} ]> ∅));
     listeners := ∅; now := 20; traffic := []; fired := [] |}.

(** A world where callback 7 is registered twice for resource [X], with
    callback 8 between the two registrations. *)
Definition subscribedWorld : World :=
  {| memory := ∅;
     listeners := {[ getCacheKey "X" [] := [7%nat; 8%nat; 7%nat] ]};
     now := 0; traffic := []; fired := [] |}.

(** A world where callbacks 1 and 2 are registered, in that order, for
    resource [X]. *)
Definition twoListeners : World :=
  {| memory := ∅;
     listeners := {[ getCacheKey "X" [] := [1%nat; 2%nat] ]};
     now := 0; traffic := []; fired := [] |}.

(** A world whose entry for resource [X] has [expiresAt] 0, seen long
    after. *)
Definition zeroExpiryWorld : World :=
  {| memory := {[ getCacheKey "X" [] := {| data := JArr [alice]; expiresAt := 0 |} ]};
     listeners := ∅; now := 1000000; traffic := []; fired := [] |}.

Definition okHttp (d : JsValue) : HttpResponse :=
  {| ok := true; statusText := "OK"; json := Some d |}.

(** A world holding one entry for resource [X] that expired at time 10,
    seen at time 20. *)
Definition staleWorld : World :=
  {| memory := {[ getCacheKey "X" [] := {| data := JArr [alice]; expiresAt := 10 |} ]};
     listeners := ∅; now := 20; traffic := []; fired := [] |}.

(** A world holding one fresh entry for resource [X]. *)
Definition freshWorld : World :=
  {| memory := {[ getCacheKey "X" [] := {| data := JArr [alice]; expiresAt := 1000 |} ]};
     listeners := ∅; now := 20; traffic := []; fired := [] |}.

(** * Properties *)

(** ** The cache's read path *)

Section FetchFacts.
Context (env : Env).

(** C3: a [fetch] without [forceRefresh] on a key whose stored entry has
    not expired returns the entry's payload and leaves the whole state
    as it was: no remote call is logged, the store is unchanged. *)
Theorem fetch_hit (endpoint : string) (o : FetchOptions) (w : World) (e : CacheEntry) :
  forceRefresh o = false ->
  memory w !! getCacheKey endpoint (filters o) = Some e ->
  ~ (now w > expiresAt e) ->
  fetch env endpoint o w = (Return (data e), w)
  /\ traffic (fetch env endpoint o w).2 = traffic w
  /\ memory (fetch env endpoint o w).2 = memory w.
Proof.
  intros Hforce Hentry Hfresh.
  assert (Hrun : fetch env endpoint o w = (Return (data e), w)).
  { unfold fetch, bind. rewrite Hforce. unfold isValidCache. rewrite Hentry.
    assert (Hgt : (now w >? expiresAt e) = false)
      by (rewrite Z.gtb_ltb; apply Z.ltb_ge; lia).
    rewrite Hgt, andb_false_r. unfold getCached. by rewrite Hentry. }
  by rewrite Hrun.
Qed.

Lemma forEach_invoke (d : JsValue) (l : list CallbackRef) (w : World) :
  forEach (invoke env d) l w =
  (match firstThrower (fun cb => callbackThrows env cb d) l with
   | Some cb => Throw (CallbackThrew cb)
   | None => Return tt
   end,
   firedAll (invokedPrefix (fun cb => callbackThrows env cb d) l) d w).
Proof.
  revert w. induction l as [|cb l IH]; intros w; simpl.
  - unfold ret, firedAll. simpl. rewrite app_nil_r. by destruct w.
  - unfold bind, invoke. destruct (callbackThrows env cb d) eqn:Hthrows.
    + done.
    + rewrite IH. unfold firedAll, recordFired. simpl.
      by rewrite <- app_assoc.
Qed.

Lemma notifyListeners_spec (key : string) (d : JsValue) (w : World) :
  notifyListeners env key d w =
  (match firstThrower (fun cb => callbackThrows env cb d)
                      (default [] (listeners w !! key)) with
   | Some cb => Throw (CallbackThrew cb)
   | None => Return tt
   end,
   firedAll (invokedPrefix (fun cb => callbackThrows env cb d)
                           (default [] (listeners w !! key))) d w).
Proof.
  unfold notifyListeners. destruct (listeners w !! key) as [l|]; simpl.
  - apply forEach_invoke.
  - unfold firedAll. simpl. rewrite app_nil_r. by destruct w.
Qed.

(** The [try]/[catch] of [fetch] when the remote call succeeds and its
    body decodes. *)
Lemma fetch_try_success (endpoint : string) (o : FetchOptions) (w : World)
    (elapsed : Z) (r : HttpResponse) (d : JsValue) :
  let key := getCacheKey endpoint (filters o) in
  transport env (length (traffic w)) (fetchRequest endpoint o) = (elapsed, Resolves r) ->
  ok r = true ->
  json r = Some d ->
  tryCatch (fetchRemote env endpoint key o) (fetchCatch key) w =
  (Return d, refreshed env key (fetchRequest endpoint o) elapsed r d (ttl o) w).
Proof.
  intros key Hnet Hok Hjson.
  unfold tryCatch, fetchRemote, bind, remoteFetch. rewrite Hnet, Hok. simpl.
  unfold responseJson. rewrite Hjson. unfold ret at 1. unfold setCached.
  rewrite notifyListeners_spec. simpl.
  destruct (firstThrower _ _); unfold refreshed, firedAll, ret; simpl; [|done].
  unfold fetchCatch. simpl. by rewrite lookup_insert_eq.
Qed.

(** The [try]/[catch] of [fetch] when the remote call fails. *)
Lemma fetch_try_failure (endpoint : string) (o : FetchOptions) (w : World)
    (elapsed : Z) (res : TransportResult) (err : Exception) :
  let key := getCacheKey endpoint (filters o) in
  transport env (length (traffic w)) (fetchRequest endpoint o) = (elapsed, res) ->
  remoteFailure res = Some err ->
  tryCatch (fetchRemote env endpoint key o) (fetchCatch key) w =
  fetchCatch key err (recordCall (fetchRequest endpoint o) elapsed res w).
Proof.
  intros key Hnet Hfail.
  unfold tryCatch, fetchRemote, bind, remoteFetch. rewrite Hnet.
  destruct res as [reason|r]; simpl in *.
  - by inversion Hfail.
  - destruct (ok r); simpl in *.
    + unfold responseJson. destruct (json r); [done|]. by inversion Hfail.
    + by inversion Hfail.
Qed.

(** What the validity test leaves when it does not report a hit. *)
Lemma fetch_miss_unfold (endpoint : string) (o : FetchOptions) (w : World) :
  let key := getCacheKey endpoint (filters o) in
  forceRefresh o = true \/
  (forall e, memory w !! key = Some e -> expiresAt e <> 0 /\ now w > expiresAt e) ->
  exists w1,
    fetch env endpoint o w =
      tryCatch (fetchRemote env endpoint key o) (fetchCatch key) w1
    /\ listeners w1 = listeners w /\ now w1 = now w
    /\ traffic w1 = traffic w /\ fired w1 = fired w
    /\ (memory w1 = memory w \/
        (forceRefresh o = false /\ memory w1 = delete key (memory w))).
Proof.
  intros key Hmiss. subst key. unfold fetch, bind.
  set (key := getCacheKey endpoint (filters o)) in *.
  destruct (forceRefresh o) eqn:Hforce.
  { exists w. unfold ret. simpl. auto 10. }
  destruct Hmiss as [?|Hexpired]; [done|].
  unfold isValidCache. destruct (memory w !! key) as [e|] eqn:Hentry.
  - destruct (Hexpired e eq_refl) as [Hnz Hgt].
    assert (Hz : (expiresAt e =? 0) = false) by by apply Z.eqb_neq.
    assert (Hb : (now w >? expiresAt e) = true)
      by (rewrite Z.gtb_ltb; apply Z.ltb_lt; lia).
    rewrite Hz, Hb. simpl.
    exists (setMemory (delete key (memory w)) w). simpl. auto 10.
  - exists w. auto 10.
Qed.

(** A successful refresh: the payload is returned, the entry is stored
    with the expiry counted from the arrival of the response, and the
    subscribers of the key are invoked in registration order up to and
    including the first one that throws. *)
Lemma fetch_refresh (endpoint : string) (o : FetchOptions) (w : World)
    (elapsed : Z) (r : HttpResponse) (d : JsValue) :
  let key := getCacheKey endpoint (filters o) in
  forceRefresh o = true \/
  (forall e, memory w !! key = Some e -> expiresAt e <> 0 /\ now w > expiresAt e) ->
  transport env (length (traffic w)) (fetchRequest endpoint o) = (elapsed, Resolves r) ->
  ok r = true ->
  json r = Some d ->
  fetch env endpoint o w =
  (Return d, refreshed env key (fetchRequest endpoint o) elapsed r d (ttl o) w).
Proof.
  intros key Hmiss Hnet Hok Hjson.
  destruct (fetch_miss_unfold endpoint o w Hmiss)
    as (w1 & -> & Hl & Hn & Ht & Hf & Hm). subst key.
  rewrite (fetch_try_success endpoint o w1 elapsed r d); [|by rewrite Ht|done|done].
  f_equal. unfold refreshed. rewrite Hl, Hn, Ht, Hf.
  destruct Hm as [->|[_ ->]]; [done|]. by rewrite insert_delete_eq.
Qed.

(** A forced refresh whose remote call fails falls back to the stored
    entry, whatever its expiry. *)
Lemma fetch_forced_failure_stale (endpoint : string) (o : FetchOptions) (w : World)
    (elapsed : Z) (res : TransportResult) (err : Exception) (e : CacheEntry) :
  forceRefresh o = true ->
  memory w !! getCacheKey endpoint (filters o) = Some e ->
  transport env (length (traffic w)) (fetchRequest endpoint o) = (elapsed, res) ->
  remoteFailure res = Some err ->
  fetch env endpoint o w =
  (Return (data e), recordCall (fetchRequest endpoint o) elapsed res w).
Proof.
  intros Hforce Hentry Hnet Hfail.
  unfold fetch, bind. rewrite Hforce. unfold ret at 1.
  rewrite (fetch_try_failure endpoint o w elapsed res err Hnet Hfail).
  unfold fetchCatch. simpl. by rewrite Hentry.
Qed.

(** The [catch] block alone: an entry present when the failure is
    handled is returned, whatever its expiry. *)
Lemma fetchCatch_stale (key : string) (err : Exception) (w : World) (e : CacheEntry) :
  memory w !! key = Some e ->
  fetchCatch key err w = (Return (data e), w).
Proof. intros Hentry. unfold fetchCatch. by rewrite Hentry. Qed.

(** Without [forceRefresh], an expired entry is evicted by the validity
    test before the remote call, so a failing remote call finds nothing
    to fall back to: the failure propagates and the entry is gone. *)
Lemma fetch_expired_failure_raises (endpoint : string) (o : FetchOptions) (w : World)
    (elapsed : Z) (res : TransportResult) (err : Exception) (e : CacheEntry) :
  let key := getCacheKey endpoint (filters o) in
  forceRefresh o = false ->
  memory w !! key = Some e ->
  expiresAt e <> 0 ->
  now w > expiresAt e ->
  transport env (length (traffic w)) (fetchRequest endpoint o) = (elapsed, res) ->
  remoteFailure res = Some err ->
  fetch env endpoint o w =
  (Throw err,
   recordCall (fetchRequest endpoint o) elapsed res
              (setMemory (delete key (memory w)) w)).
Proof.
  intros key Hforce Hentry Hnz Hgt Hnet Hfail. subst key.
  unfold fetch, bind. rewrite Hforce. unfold isValidCache. rewrite Hentry.
  assert (Hz : (expiresAt e =? 0) = false) by by apply Z.eqb_neq.
  assert (Hb : (now w >? expiresAt e) = true)
    by (rewrite Z.gtb_ltb; apply Z.ltb_lt; lia).
  rewrite Hz, Hb. simpl.
  rewrite (fetch_try_failure endpoint o _ elapsed res err); [|done|done].
  unfold fetchCatch. simpl. by rewrite lookup_delete_eq.
Qed.

(** C8: [invalidate] never raises and removes the derived key; a
    [fetch] of the same resource and filters right after it, without
    [forceRefresh], issues exactly one remote call, with the request of
    that resource. *)
Theorem invalidate_then_fetch_calls_remote (endpoint : string) (fs : Filters)
    (t : Z) (m : string) (b : JsValue) (w : World) :
  let o := {| ttl := t; forceRefresh := false; filters := fs; method := m; body := b |} in
  let w1 := (invalidate endpoint fs w).2 in
  (invalidate endpoint fs w).1 = Return tt
  /\ memory w1 = delete (getCacheKey endpoint fs) (memory w)
  /\ traffic (fetch env endpoint o w1).2 =
     traffic w ++ [(fetchRequest endpoint o,
                    (transport env (length (traffic w)) (fetchRequest endpoint o)).2)].
Proof.
  intros o w1. split; [done|]. split; [done|].
  assert (Hmiss : forceRefresh o = true \/
            (forall e, memory w1 !! getCacheKey endpoint (filters o) = Some e ->
                       expiresAt e <> 0 /\ now w1 > expiresAt e)).
  { right. intros e He. simpl in He. by rewrite lookup_delete_eq in He. }
  destruct (fetch_miss_unfold endpoint o w1 Hmiss)
    as (w2 & -> & _ & _ & Ht & _ & _).
  change (traffic w1) with (traffic w) in Ht.
  unfold tryCatch, fetchRemote, bind, remoteFetch. rewrite Ht.
  destruct (transport env (length (traffic w)) (fetchRequest endpoint o))
    as [elapsed res] eqn:Hnet.
  destruct res as [reason|r]; simpl.
  - unfold fetchCatch. simpl. destruct (memory w2 !! _); simpl; by rewrite Ht.
  - destruct (ok r); simpl.
    + unfold responseJson. destruct (json r) as [d|]; simpl.
      * unfold ret at 1. unfold setCached. rewrite notifyListeners_spec. simpl.
        destruct (firstThrower _ _); simpl.
        -- unfold fetchCatch. simpl. rewrite lookup_insert_eq. simpl. by rewrite Ht.
        -- by rewrite Ht.
      * unfold throw, fetchCatch. simpl.
        destruct (memory w2 !! _); simpl; by rewrite Ht.
    + unfold throw, fetchCatch. simpl.
      destruct (memory w2 !! _); simpl; by rewrite Ht.
Qed.

(** A forced [fetch] always issues its remote call; it either stores
    the decoded payload or hands the failure to the [catch] block. *)
Lemma fetch_forced_spec (endpoint : string) (o : FetchOptions) (w : World) :
  let key := getCacheKey endpoint (filters o) in
  let req := fetchRequest endpoint o in
  forceRefresh o = true ->
  exists elapsed res,
    transport env (length (traffic w)) req = (elapsed, res)
    /\ match remoteFailure res with
       | Some err =>
           fetch env endpoint o w = fetchCatch key err (recordCall req elapsed res w)
       | None =>
           exists r d, res = Resolves r /\ ok r = true /\ json r = Some d
             /\ fetch env endpoint o w =
                  (Return d, refreshed env key req elapsed r d (ttl o) w)
       end.
Proof.
  intros key req Hforce. subst key req.
  destruct (transport env (length (traffic w)) (fetchRequest endpoint o))
    as [elapsed res] eqn:Hnet.
  exists elapsed, res. split; [done|].
  destruct (remoteFailure res) as [err|] eqn:Hfail.
  - unfold fetch, bind. rewrite Hforce. unfold ret at 1.
    by apply fetch_try_failure.
  - destruct res as [reason|r]; [done|]. simpl in Hfail.
    destruct (ok r) eqn:Hok; [|done]. simpl in Hfail.
    destruct (json r) as [d|] eqn:Hjson; [|done].
    exists r, d. repeat split; try done.
    apply fetch_refresh; auto.
Qed.

(** When a forced [fetch] returns a value, that value is the payload
    of the key's entry afterwards, exactly one remote call was logged,
    and no key of the store was removed. *)
Lemma fetch_forced_returns (endpoint : string) (o : FetchOptions) (w w1 : World)
    (v : Outcome JsValue) :
  let key := getCacheKey endpoint (filters o) in
  forceRefresh o = true ->
  fetch env endpoint o w = (v, w1) ->
  (exists res, traffic w1 = traffic w ++ [(fetchRequest endpoint o, res)]
               /\ (remoteFailure res <> None -> memory w1 = memory w))
  /\ (forall k, is_Some (memory w !! k) -> is_Some (memory w1 !! k))
  /\ (forall d, v = Return d -> exists e, memory w1 !! key = Some e /\ data e = d).
Proof.
  intros key Hforce Hrun. subst key.
  destruct (fetch_forced_spec endpoint o w Hforce) as (elapsed & res & Hnet & Hcases).
  destruct (remoteFailure res) as [err|] eqn:Hfail.
  - rewrite Hcases in Hrun. unfold fetchCatch in Hrun. simpl in Hrun.
    destruct (memory w !! getCacheKey endpoint (filters o)) as [e|] eqn:Hentry;
      inversion Hrun; subst; simpl.
    + split; [eauto|]. split; [done|]. intros d [= <-]. eauto.
    + split; [eauto|]. split; [done|]. by intros d.
  - destruct Hcases as (r & d & -> & Hok & Hjson & Hfetch).
    rewrite Hfetch in Hrun. inversion Hrun; subst; simpl.
    split; [exists (Resolves r); split; [done|]; by rewrite Hfail|].
    split.
    + intros k Hk. destruct (decide (k = getCacheKey endpoint (filters o))) as [->|Hne].
      * rewrite lookup_insert_eq. eauto.
      * by rewrite lookup_insert_ne.
    + intros d' [= <-]. rewrite lookup_insert_eq. eauto.
Qed.

End FetchFacts.

(** ** Subscriptions *)

Section SubscriptionFacts.
Context (env : Env).

Lemma onUpdate_spec (key : string) (cb : CallbackRef) (w : World) :
  onUpdate key cb w =
  (Return {| unsubKey := key; unsubCallback := cb |},
   setListeners (<[key := default [] (listeners w !! key) ++ [cb]]> (listeners w)) w).
Proof. reflexivity. Qed.

(** C5, as the code has it: the handle [onUpdate key cb] returns
    removes, when called in a state where [l] is registered for [key],
    every registration of [cb] in [l] at once, keeps the registrations
    of all other callbacks in their order, and touches nothing else. *)
Theorem unsubscribe_removes_every_registration
    (key : string) (cb : CallbackRef) (w0 w : World) (l : list CallbackRef) :
  listeners w !! key = Some l ->
  exists h w',
    (onUpdate key cb w0).1 = Return h
    /\ unsubscribe h w = (Return tt, w')
    /\ listeners w' !! key = Some (filter (fun c => c <> cb) l)
    /\ (cb ∉ filter (fun c => c <> cb) l)
    /\ (forall c, c <> cb ->
          filter (fun x => x = c) (filter (fun c => c <> cb) l) = filter (fun x => x = c) l)
    /\ (forall k, k <> key -> listeners w' !! k = listeners w !! k)
    /\ memory w' = memory w.
Proof.
  intros Hl.
  exists {| unsubKey := key; unsubCallback := cb |}.
  exists (setListeners (<[key := filter (fun c => c <> cb) l]> (listeners w)) w).
  split; [done|]. split.
  { unfold unsubscribe. simpl. by rewrite Hl. }
  split. { simpl. by rewrite lookup_insert_eq. }
  split. { rewrite list_elem_of_filter. tauto. }
  split.
  { intros c Hc. clear Hl. induction l as [|x l IH]; [done|].
    destruct (decide (x = cb)) as [->|Hx].
    - rewrite filter_cons_False by tauto.
      rewrite (filter_cons_False (fun x => x = c)) by congruence. done.
    - rewrite filter_cons_True by done.
      destruct (decide (x = c)) as [->|Hxc].
      + rewrite !(filter_cons_True (fun x => x = c)) by done. by rewrite IH.
      + rewrite !(filter_cons_False (fun x => x = c)) by done. done. }
  split; [|done].
  intros k Hk. simpl. by rewrite lookup_insert_ne.
Qed.

Lemma invokedPrefix_all (throws : CallbackRef -> bool) (l : list CallbackRef) :
  (forall c, c ∈ l -> throws c = false) -> invokedPrefix throws l = l.
Proof.
  induction l as [|c l IH]; intros Hall; [done|]. simpl.
  rewrite (Hall c) by apply list_elem_of_here.
  rewrite IH; [done|]. intros c' Hc'. apply Hall. by apply list_elem_of_further.
Qed.

Lemma invokedPrefix_stops (throws : CallbackRef -> bool)
    (pre post : list CallbackRef) (c : CallbackRef) :
  (forall x, x ∈ pre -> throws x = false) ->
  throws c = true ->
  invokedPrefix throws (pre ++ c :: post) = pre ++ [c].
Proof.
  induction pre as [|x pre IH]; intros Hpre Hc; simpl.
  - by rewrite Hc.
  - rewrite (Hpre x) by apply list_elem_of_here.
    rewrite IH; [done| |done]. intros y Hy. apply Hpre. by apply list_elem_of_further.
Qed.

(** C6, as the code has it: a successful refresh of a key with
    subscribers [cs] returns the new payload, stores the refreshed entry
    (new payload, expiry counted from the arrival of the response) and
    invokes the subscribers in registration order up to and including
    the first one that throws; the subscribers after a throwing one are
    not invoked.  When none throws, all of [cs] are invoked in order. *)
Theorem refresh_notifies_until_first_throw
    (endpoint : string) (o : FetchOptions) (w : World)
    (elapsed : Z) (r : HttpResponse) (d : JsValue) (cs : list CallbackRef) :
  let key := getCacheKey endpoint (filters o) in
  let throws := fun cb => callbackThrows env cb d in
  listeners w !! key = Some cs ->
  forceRefresh o = true \/
  (forall e, memory w !! key = Some e -> expiresAt e <> 0 /\ now w > expiresAt e) ->
  transport env (length (traffic w)) (fetchRequest endpoint o) = (elapsed, Resolves r) ->
  ok r = true ->
  json r = Some d ->
  exists w',
    fetch env endpoint o w = (Return d, w')
    /\ memory w' !! key = Some {| data := d; expiresAt := now w + elapsed + ttl o |}
    /\ (forall k, k <> key -> memory w' !! k = memory w !! k)
    /\ fired w' = fired w ++ map (fun cb => (cb, d)) (invokedPrefix throws cs)
    /\ ((forall c, c ∈ cs -> throws c = false) ->
        fired w' = fired w ++ map (fun cb => (cb, d)) cs)
    /\ (forall pre ci post,
          cs = pre ++ ci :: post ->
          (forall c, c ∈ pre -> throws c = false) ->
          throws ci = true ->
          fired w' = fired w ++ map (fun cb => (cb, d)) (pre ++ [ci])).
Proof.
  intros key throws Hcs Hmiss Hnet Hok Hjson.
  exists (refreshed env key (fetchRequest endpoint o) elapsed r d (ttl o) w).
  split. { by apply fetch_refresh. }
  assert (Hfired : fired (refreshed env key (fetchRequest endpoint o) elapsed r d (ttl o) w)
                   = fired w ++ map (fun cb => (cb, d)) (invokedPrefix throws cs)).
  { unfold refreshed. simpl. by rewrite Hcs. }
  split. { simpl. by rewrite lookup_insert_eq. }
  split. { intros k Hk. simpl. by rewrite lookup_insert_ne. }
  split; [done|]. split.
  - intros Hall. rewrite Hfired. by rewrite invokedPrefix_all.
  - intros pre ci post -> Hpre Hci. rewrite Hfired. by rewrite invokedPrefix_stops.
Qed.

End SubscriptionFacts.

(** ** Concrete runs of the cache *)

(** C6, as stated, fails: with subscribers [1; 2] registered in that
    order for a key and callback [1] throwing, a successful refresh
    invokes [1] only; callback [2] never fires, although the refreshed
    entry is stored and the payload returned. *)
Lemma throwing_callback_blocks_later_ones :
  let key := getCacheKey "X" [] in
  let env := scripted [(5, okResponse (JArr [alice]))] [1%nat] in
  let w1 := (onUpdate key 1%nat emptyWorld).2 in
  let w2 := (onUpdate key 2%nat w1).2 in
  let run := fetch env "X" unforced w2 in
  listeners w2 !! key = Some [1%nat; 2%nat]
  /\ run.1 = Return (JArr [alice])
  /\ memory run.2 !! key = Some {| data := JArr [alice]; expiresAt := 1005 |}
  /\ fired run.2 = [(1%nat, JArr [alice])]
  /\ ~ In (2%nat, JArr [alice]) (fired run.2).
Proof.
  vm_compute. repeat split; try reflexivity. intros [H|[]]. discriminate H.
Qed.

(** C1 at the failing input: an entry that expired at 10 is in the store
    at time 20 and the network is down.  Without [forceRefresh] the
    validity test deletes the entry before the remote call, the fallback
    finds nothing and [fetch] raises; the payload is lost.  With
    [forceRefresh] the same state and failure return the stale payload. *)
Lemma expired_entry_is_evicted_before_fallback :
  let key := getCacheKey "X" [] in
  let env := scripted [(5, Rejects "Failed to fetch")] [] in
  memory staleWorld !! key = Some {| data := JArr [alice]; expiresAt := 10 |}
  /\ now staleWorld = 20
  /\ (fetch env "X" unforced staleWorld).1 = Throw (NetworkError "Failed to fetch")
  /\ memory (fetch env "X" unforced staleWorld).2 !! key = None
  /\ (fetch env "X" forced staleWorld).1 = Return (JArr [alice]).
Proof. vm_compute. repeat split; reflexivity. Qed.

(** C5, as stated, fails: after the same callback is registered twice for
    a key, calling the handle of the first registration removes both
    registrations; the next successful refresh fires nothing, where one
    registration should have remained. *)
Lemma unsubscribe_removes_duplicates :
  let key := getCacheKey "X" [] in
  let env := scripted [(5, okResponse (JArr [alice]))] [] in
  let first := onUpdate key 7%nat emptyWorld in
  let second := onUpdate key 7%nat first.2 in
  let after := match first.1 with
               | Return h => (unsubscribe h second.2).2
               | Throw _ => second.2
               end in
  let run := fetch env "X" unforced after in
  listeners second.2 !! key = Some [7%nat; 7%nat]
  /\ listeners after !! key = Some []
  /\ run.1 = Return (JArr [alice])
  /\ fired run.2 = [].
Proof. vm_compute. repeat split; reflexivity. Qed.

(** ** Cache keys *)

Section CodeUnitOrder.

Lemma ascii_compare_lt (a b : ascii) :
  Ascii.compare a b = Lt <-> (N_of_ascii a < N_of_ascii b)%N.
Proof. unfold Ascii.compare. apply N.compare_lt_iff. Qed.

Lemma ascii_compare_refl (a : ascii) : Ascii.compare a a = Eq.
Proof. unfold Ascii.compare. apply N.compare_refl. Qed.

Lemma string_compare_refl (s : string) : String.compare s s = Eq.
Proof. induction s as [|a s IH]; simpl; [done|]. by rewrite ascii_compare_refl. Qed.

Lemma string_compare_trans (s t u : string) :
  String.compare s t = Lt -> String.compare t u = Lt -> String.compare s u = Lt.
Proof.
  revert t u. induction s as [|a s IH]; intros [|b t] [|c u]; simpl; try done.
  destruct (Ascii.compare a b) eqn:Hab; [|clear IH|done];
    destruct (Ascii.compare b c) eqn:Hbc; try done.
  - apply Ascii.compare_eq_iff in Hab, Hbc. subst. rewrite ascii_compare_refl. apply IH.
  - apply Ascii.compare_eq_iff in Hab. subst. by rewrite Hbc.
  - apply Ascii.compare_eq_iff in Hbc. subst. by rewrite Hab.
  - intros _ _. apply ascii_compare_lt in Hab. apply ascii_compare_lt in Hbc.
    assert (H : Ascii.compare a c = Lt)
      by (apply ascii_compare_lt; eapply N.lt_trans; eassumption).
    by rewrite H.
Qed.

Lemma ltb_irrefl (s : string) : String.ltb s s = false.
Proof. unfold String.ltb. by rewrite string_compare_refl. Qed.

Lemma ltb_trans (s t u : string) :
  String.ltb s t = true -> String.ltb t u = true -> String.ltb s u = true.
Proof.
  unfold String.ltb. intros Hst Htu.
  destruct (String.compare s t) eqn:H1; try done.
  destruct (String.compare t u) eqn:H2; try done.
  by rewrite (string_compare_trans s t u).
Qed.

Lemma ltb_cases (s t : string) :
  String.ltb s t = true \/ s = t \/ String.ltb t s = true.
Proof.
  unfold String.ltb. rewrite (String.compare_antisym t s).
  destruct (String.compare s t) eqn:H; simpl; auto.
  right. left. by apply String.compare_eq_iff.
Qed.

Lemma ltb_asym (s t : string) : String.ltb s t = true -> String.ltb t s = false.
Proof.
  intros Hst. destruct (String.ltb t s) eqn:Hts; [|done].
  pose proof (ltb_trans s t s Hst Hts) as H. by rewrite ltb_irrefl in H.
Qed.

(** [t] is not below [s], and [t] is below [u]: then [s] is below [u]. *)
Lemma ltb_le_lt (s t u : string) :
  String.ltb t s = false -> String.ltb t u = true -> String.ltb s u = true.
Proof.
  intros Hts Htu. destruct (ltb_cases s t) as [H|[->|H]]; [|done|congruence].
  by apply (ltb_trans s t u).
Qed.

End CodeUnitOrder.

Section SortFacts.
Context {A : Type} (key : A -> string).

(** Insertions of two elements with different sort strings commute. *)
Lemma insertSorted_comm (x y : A) (l : list A) :
  key x <> key y ->
  insertSorted key x (insertSorted key y l) = insertSorted key y (insertSorted key x l).
Proof.
  intros Hne. induction l as [|z l IH]; simpl.
  - destruct (ltb_cases (key x) (key y)) as [H|[H|H]]; [|done|].
    + by rewrite H, (ltb_asym _ _ H).
    + by rewrite H, (ltb_asym _ _ H).
  - destruct (String.ltb (key z) (key y)) eqn:Hzy;
      destruct (String.ltb (key z) (key x)) eqn:Hzx; simpl; rewrite ?Hzy, ?Hzx.
    + by rewrite IH.
    + by rewrite (ltb_le_lt _ _ _ Hzx Hzy).
    + by rewrite (ltb_le_lt _ _ _ Hzy Hzx).
    + destruct (ltb_cases (key x) (key y)) as [H|[H|H]]; [|done|].
      * by rewrite H, (ltb_asym _ _ H).
      * by rewrite H, (ltb_asym _ _ H).
Qed.

(** The sort does not depend on the order of its input when no two
    elements share a sort string. *)
Lemma sortBy_Permutation (l1 l2 : list A) :
  Permutation l1 l2 -> NoDup (map key l1) -> sortBy key l1 = sortBy key l2.
Proof.
  induction 1 as [|x l1 l2 Hperm IH|x y l|l1 l2 l3 H12 IH12 H23 IH23]; intros Hnd.
  - done.
  - simpl. rewrite IH; [done|]. simpl in Hnd. by apply NoDup_cons_1_2 in Hnd.
  - simpl. apply insertSorted_comm. simpl in Hnd.
    apply NoDup_cons_1_1 in Hnd. intros Heq. apply Hnd. rewrite Heq. apply list_elem_of_here.
  - rewrite IH12 by done. apply IH23.
    assert (Hmap : Permutation (map key l1) (map key l2)) by by apply Permutation_map.
    by rewrite <- Hmap.
Qed.

End SortFacts.

(** [getCacheKey] takes no state and returns a string: it is a function
    of its two arguments.  Filter objects holding the same entries give
    the same key whenever no two entries render to the same
    ["key,value"] string, the string [sort()] orders them by. *)
Lemma getCacheKey_Permutation (endpoint : string) (f1 f2 : Filters) :
  Permutation f1 f2 ->
  NoDup (map entrySortString f1) ->
  getCacheKey endpoint f1 = getCacheKey endpoint f2.
Proof.
  intros Hperm Hnd. unfold getCacheKey.
  by rewrite (sortBy_Permutation entrySortString f1 f2 Hperm Hnd).
Qed.

Lemma entrySortString_unfold (k : string) (v : JsValue) :
  exists rest, entrySortString (k, v) = k +:+ "," +:+ rest.
Proof. unfold entrySortString. simpl. eauto. Qed.

Lemma comma_free_prefix_inj (k1 k2 r1 r2 : string) :
  noComma k1 = true -> noComma k2 = true ->
  k1 +:+ "," +:+ r1 = k2 +:+ "," +:+ r2 -> k1 = k2.
Proof.
  revert k2. induction k1 as [|a k1 IH]; intros [|b k2] H1 H2 Heq; simpl in *.
  - done.
  - inversion Heq; subst. by rewrite Ascii.eqb_refl in H2.
  - inversion Heq; subst. by rewrite Ascii.eqb_refl in H1.
  - apply andb_prop in H1 as [_ H1]. apply andb_prop in H2 as [_ H2].
    inversion Heq; subst. f_equal. by apply IH.
Qed.

Lemma comma_free_sort_strings (f : Filters) :
  NoDup (map fst f) ->
  Forall (fun e => noComma e.1 = true) f ->
  NoDup (map entrySortString f).
Proof.
  induction f as [|[k v] f IH]; intros Hnd Hcf; simpl; [constructor|].
  simpl in Hnd. apply NoDup_cons in Hnd as [Hk Hnd]. apply Forall_cons in Hcf as [Hkc Hcf].
  apply NoDup_cons. split; [|by apply IH].
  intros Hin. apply Hk. apply list_elem_of_fmap in Hin as ([k' v'] & Heq & Hin').
  apply list_elem_of_fmap. exists (k', v'). split; [|done]. simpl.
  destruct (entrySortString_unfold k v) as [r Hr].
  destruct (entrySortString_unfold k' v') as [r' Hr'].
  rewrite Hr, Hr' in Heq.
  rewrite Forall_forall in Hcf. specialize (Hcf _ Hin'). simpl in *.
  by apply (comma_free_prefix_inj k k' r r').
Qed.

(** Filter objects with the same entries and comma-free parameter names
    give the same key, whatever the insertion order. *)
Lemma getCacheKey_comma_free (endpoint : string) (f1 f2 : Filters) :
  Permutation f1 f2 ->
  NoDup (map fst f1) ->
  Forall (fun e => noComma e.1 = true) f1 ->
  getCacheKey endpoint f1 = getCacheKey endpoint f2.
Proof.
  intros Hperm Hnd Hcf. apply getCacheKey_Permutation; [done|].
  by apply comma_free_sort_strings.
Qed.

(** The two objects [{a:1,b:2}] and [{b:2,a:1}] get one key. *)
Example getCacheKey_a_b :
  getCacheKey "X" [("a", JNum 1); ("b", JNum 2)] = "api_cache_X_a=1&b=2"
  /\ getCacheKey "X" [("b", JNum 2); ("a", JNum 1)] = "api_cache_X_a=1&b=2"
  /\ getCacheKey "X" [] = "api_cache_X".
Proof. repeat split; reflexivity. Qed.

(** C2 at the failing input: two filter objects with the same two
    entries, inserted in opposite orders, whose entries both render to
    ["a,b,c"] for the sort; the sort keeps each insertion order and the
    two cache keys differ. *)
Lemma getCacheKey_depends_on_insertion_order :
  let f1 := [("a", JStr "b,c"); ("a,b", JStr "c")] in
  let f2 := [("a,b", JStr "c"); ("a", JStr "b,c")] in
  Permutation f1 f2
  /\ NoDup (map fst f1)
  /\ map entrySortString f1 = ["a,b,c"; "a,b,c"]
  /\ getCacheKey "X" f1 = "api_cache_X_a=b,c&a,b=c"
  /\ getCacheKey "X" f2 = "api_cache_X_a,b=c&a=b,c"
  /\ getCacheKey "X" f1 <> getCacheKey "X" f2.
Proof.
  intros f1 f2. split; [apply perm_swap|].
  split.
  { apply NoDup_cons. split; [|apply NoDup_singleton].
    rewrite list_elem_of_singleton. discriminate. }
  repeat split; try reflexivity. vm_compute. discriminate.
Qed.

(** ** The orchestrator's writes *)

Section WriteFacts.
Context (env : Env).

(** The common shape of the writes: one remote call, a status test,
    then a continuation that makes no further remote call. *)
Lemma write_failed (req : Request) (msg : string) (k : HttpResponse -> M JsValue)
    (w : World) (rq : Request) (resp : HttpResponse) :
  (forall r w1, traffic (k r w1).2 = traffic w1) ->
  let run := (let* response := remoteFetch env req in
              if negb (ok response) then throw (Error msg) else k response) w in
  last (traffic run.2) = Some (rq, Resolves resp) ->
  ok resp = false ->
  isThrow run.1 /\ memory run.2 = memory w.
Proof.
  intros Hk run. subst run. unfold bind, remoteFetch.
  destruct (transport env (length (traffic w)) req) as [elapsed [reason|r]] eqn:Hnet;
    simpl.
  - done.
  - destruct (ok r) eqn:Hok; simpl; [|done].
    rewrite Hk. simpl. rewrite last_snoc. intros [= _ <-] Hbad. congruence.
Qed.

(** A write that invalidates one key on success. *)
Lemma write1_failed (req : Request) (msg endpoint : string)
    (w : World) (rq : Request) (resp : HttpResponse) :
  let run := (let* response := remoteFetch env req in
              if negb (ok response) then throw (Error msg)
              else invalidate endpoint [] ;; responseJson response) w in
  last (traffic run.2) = Some (rq, Resolves resp) ->
  ok resp = false ->
  isThrow run.1 /\ memory run.2 = memory w.
Proof.
  apply (write_failed req msg
           (fun response => invalidate endpoint [] ;; responseJson response)).
  intros r w1. unfold bind, invalidate, responseJson. simpl. by destruct (json r).
Qed.

(** A write that invalidates two keys on success. *)
Lemma write2_failed (req : Request) (msg e1 e2 : string)
    (w : World) (rq : Request) (resp : HttpResponse) :
  let run := (let* response := remoteFetch env req in
              if negb (ok response) then throw (Error msg)
              else invalidate e1 [] ;; invalidate e2 [] ;; responseJson response) w in
  last (traffic run.2) = Some (rq, Resolves resp) ->
  ok resp = false ->
  isThrow run.1 /\ memory run.2 = memory w.
Proof.
  apply (write_failed req msg
           (fun response => invalidate e1 [] ;; invalidate e2 [] ;; responseJson response)).
  intros r w1. unfold bind, invalidate, responseJson. simpl. by destruct (json r).
Qed.

(** [updateMember], step by step. *)
Lemma updateMember_unfold (memberName : string) (updates : list (string * JsValue))
    (w : World) :
  updateMember env memberName updates w =
  match getMembers env true w with
  | (Throw e, w1) => (Throw e, w1)
  | (Return members, w1) =>
      match arrayFind members (nameIs memberName) with
      | Throw e => (Throw e, w1)
      | Return member =>
          match (if truthy member then getProp member "Id" else Return JUndefined) with
          | Throw e => (Throw e, w1)
          | Return id =>
              if negb (truthy member) || negb (truthy id)
              then (Throw (notFound memberName), w1)
              else
                match updateMemberRequest member updates with
                | Throw e => (Throw e, w1)
                | Return req =>
                    (let* response := remoteFetch env req in
                     if negb (ok response) then throw (Error "Failed to update member")
                     else invalidate ENDPOINTS_MEMBERS [] ;; responseJson response) w1
                end
          end
      end
  end.
Proof.
  unfold updateMember. unfold bind at 1.
  destruct (getMembers env true w) as [[members|e] w1]; [|done].
  unfold bind at 1. unfold liftOutcome at 1.
  destruct (arrayFind members (nameIs memberName)) as [member|e]; [|done].
  unfold bind at 1.
  destruct (truthy member) eqn:Hm.
  - unfold liftOutcome at 1. destruct (getProp member "Id") as [id|e]; [|done].
    simpl. destruct (negb (truthy id)); [done|].
    unfold bind at 1. unfold liftOutcome at 1.
    by destruct (updateMemberRequest member updates).
  - done.
Qed.

(** [updateMember] ends in an exception with the store its forced read
    left, unless its write call comes back with a success status. *)
Lemma updateMember_failed (memberName : string) (updates : list (string * JsValue))
    (w : World) (rq : Request) (resp : HttpResponse) :
  let run := updateMember env memberName updates w in
  last (traffic run.2) = Some (rq, Resolves resp) ->
  ok resp = false ->
  isThrow run.1 /\ memory run.2 = memory (getMembers env true w).2.
Proof.
  intros run. subst run. rewrite updateMember_unfold.
  destruct (getMembers env true w) as [[members|e] w1]; [|done].
  destruct (arrayFind members (nameIs memberName)) as [member|e]; [|done].
  destruct (if truthy member then getProp member "Id" else Return JUndefined)
    as [id|e]; [|done].
  destruct (negb (truthy member) || negb (truthy id)); [done|].
  destruct (updateMemberRequest member updates) as [req|e]; [|done].
  intros Hlast Hbad.
  by apply (write1_failed req _ _ w1 rq resp).
Qed.

Lemma store_untouched (run : Outcome JsValue * World) (w w1 : World) :
  isThrow run.1 ->
  memory run.2 = memory w ->
  isThrow run.1
  /\ (forall k, is_Some (memory w !! k) -> is_Some (memory run.2 !! k))
  /\ (false = false -> memory run.2 = memory w)
  /\ (false = true -> memory run.2 = memory w1).
Proof. intros Hthrow Hmem. rewrite Hmem. by repeat split. Qed.

(** C4, as the code has it: when the last remote call of a write
    operation came back with a non-success status, the operation raises
    and no cache key is invalidated.  For the six single-call writes the
    store is exactly the store before the operation; for [updateMember]
    it is the store its forced member read left. *)
Theorem failed_write_invalidates_nothing
    (op : WriteOp) (w : World) (rq : Request) (resp : HttpResponse) :
  let run := runWrite env op w in
  last (traffic run.2) = Some (rq, Resolves resp) ->
  ok resp = false ->
  isThrow run.1
  /\ (forall k, is_Some (memory w !! k) -> is_Some (memory run.2 !! k))
  /\ (isUpdateMember op = false -> memory run.2 = memory w)
  /\ (isUpdateMember op = true -> memory run.2 = memory (getMembers env true w).2).
Proof.
  intros run Hlast Hbad. subst run.
  destruct op as [d|d|d|i d|n|n|n u]; simpl in *.
  1-4,6: destruct (write1_failed _ _ _ w rq resp Hlast Hbad) as [Hthrow Hmem];
         by apply store_untouched.
  - destruct (write2_failed _ _ _ _ w rq resp Hlast Hbad) as [Hthrow Hmem].
    by apply store_untouched.
  - destruct (updateMember_failed n u w rq resp Hlast Hbad) as [Hthrow Hmem].
    split; [done|]. split; [|by split].
    rewrite Hmem. intros k Hk.
    destruct (getMembers env true w) as [v w1] eqn:Hget.
    by apply (fetch_forced_returns env ENDPOINTS_MEMBERS membersForced w w1 v).
Qed.

Lemma findM_none (pred : JsValue -> Outcome bool) (ms : list JsValue) :
  (forall m, m ∈ ms -> pred m = Return false) -> findM pred ms = Return JUndefined.
Proof.
  induction ms as [|x ms IH]; intros Hall; simpl; [done|].
  rewrite (Hall x) by apply list_elem_of_here.
  apply IH. intros m Hm. apply Hall. by apply list_elem_of_further.
Qed.

Lemma findM_first (pred : JsValue -> Outcome bool) (pre post : list JsValue) (m : JsValue) :
  (forall x, x ∈ pre -> pred x = Return false) ->
  pred m = Return true ->
  findM pred (pre ++ m :: post) = Return m.
Proof.
  induction pre as [|x pre IH]; intros Hpre Hm; simpl.
  - by rewrite Hm.
  - rewrite (Hpre x) by apply list_elem_of_here.
    apply IH; [|done]. intros y Hy. apply Hpre. by apply list_elem_of_further.
Qed.

(** Only an object can satisfy [m.Name === memberName]. *)
Lemma nameIs_true_object (memberName : string) (m : JsValue) :
  nameIs memberName m = Return true -> exists props, m = JObj props.
Proof. destruct m; simpl; try done. eauto. Qed.

(** C7: when the forced member read returns the list [ms] and either no
    element satisfies [m.Name === memberName], or the first element
    that does has no truthy [Id], [updateMember] raises the not-found
    error in the state the read left: the read's call is the only
    remote call logged (no write is attempted) and the members key
    still holds an entry, with payload [ms]. *)
Theorem updateMember_not_found
    (memberName : string) (updates : list (string * JsValue))
    (w w1 : World) (ms : list JsValue) :
  getMembers env true w = (Return (JArr ms), w1) ->
  (forall m, m ∈ ms -> nameIs memberName m = Return false)
  \/ (exists pre m post id,
        ms = pre ++ m :: post
        /\ (forall x, x ∈ pre -> nameIs memberName x = Return false)
        /\ nameIs memberName m = Return true
        /\ getProp m "Id" = Return id
        /\ truthy id = false) ->
  updateMember env memberName updates w = (Throw (notFound memberName), w1)
  /\ (exists res,
        traffic w1 = traffic w ++ [(fetchRequest ENDPOINTS_MEMBERS membersForced, res)])
  /\ (exists e, memory w1 !! membersKey = Some e /\ data e = JArr ms).
Proof.
  intros Hget Hcase.
  destruct (fetch_forced_returns env ENDPOINTS_MEMBERS membersForced w w1
              (Return (JArr ms)) eq_refl Hget) as ((res & Htraffic & _) & _ & Hentry).
  split; [|split; [by exists res|by apply Hentry]].
  rewrite updateMember_unfold, Hget. simpl.
  destruct Hcase as [Hnone|(pre & m & post & id & -> & Hpre & Hm & Hid & Hfalsy)].
  - by rewrite findM_none.
  - rewrite findM_first by done.
    destruct (nameIs_true_object _ _ Hm) as [props ->]. simpl in *.
    inversion Hid; subst. by rewrite Hfalsy.
Qed.

(** [searchTransactions] reads the store only. *)
Lemma searchTransactions_reads_memory (memberName : string) (w w' : World) :
  memory w' = memory w ->
  (searchTransactions memberName w').1 = (searchTransactions memberName w).1.
Proof.
  intros Hmem. unfold searchTransactions, bind, getCached. rewrite Hmem.
  destruct (memory w !! _) as [e|]; simpl.
  - destruct (negb (truthy (data e))); [done|].
    by destruct (negb (negb (String.eqb memberName ""))).
  - done.
Qed.

(** [deleteTransactionById] never writes to the store. *)
Lemma deleteTransactionById_memory (id : JsValue) (w : World) :
  memory (deleteTransactionById env id w).2 = memory w.
Proof.
  unfold deleteTransactionById, bind, remoteFetch.
  destruct (transport env _ _) as [elapsed [reason|r]]; simpl; [done|].
  destruct (ok r); simpl; [|done]. unfold responseJson. by destruct (json r).
Qed.

(** C9: when the remote delete of [deleteTransactionById] succeeds and
    its body decodes to [b], the operation returns [b] and the store is
    what it was: the transactions key keeps its entry and the local
    transaction searches answer as before. *)
Theorem deleteTransactionById_keeps_cache
    (id : JsValue) (w : World) (rq : Request) (resp : HttpResponse) (b : JsValue) :
  let run := deleteTransactionById env id w in
  last (traffic run.2) = Some (rq, Resolves resp) ->
  ok resp = true ->
  json resp = Some b ->
  run.1 = Return b
  /\ memory run.2 = memory w
  /\ memory run.2 !! transactionsKey = memory w !! transactionsKey
  /\ (getCached transactionsKey run.2).1 = (getCached transactionsKey w).1
  /\ (forall memberName,
        (searchTransactions memberName run.2).1 =
        (searchTransactions memberName w).1).
Proof.
  intros run Hlast Hok Hjson.
  pose proof (deleteTransactionById_memory id w) as Hmem. fold run in Hmem.
  split.
  - subst run. revert Hlast. unfold deleteTransactionById, bind, remoteFetch.
    destruct (transport env _ _) as [elapsed [reason|r]]; simpl.
    + by rewrite last_snoc.
    + destruct (ok r) eqn:Hokr; simpl.
      * unfold responseJson. destruct (json r) eqn:Hjr; simpl;
          rewrite last_snoc; intros [= _ <-]; congruence.
      * rewrite last_snoc. intros [= _ <-]. congruence.
  - clearbody run. split; [exact Hmem|]. split; [by rewrite Hmem|]. split.
    + unfold getCached. rewrite Hmem. by destruct (memory w !! transactionsKey).
    + intros memberName. by apply searchTransactions_reads_memory.
Qed.

(** The sibling [deleteTransactions] does invalidate on success. *)
Lemma deleteTransactions_invalidates
    (memberName : string) (w : World) (rq : Request) (resp : HttpResponse) :
  let run := deleteTransactions env memberName w in
  last (traffic run.2) = Some (rq, Resolves resp) ->
  ok resp = true ->
  memory run.2 = delete transactionsKey (memory w).
Proof.
  intros run. subst run. unfold deleteTransactions, bind, remoteFetch.
  destruct (transport env _ _) as [elapsed [reason|r]]; simpl.
  - by rewrite last_snoc.
  - destruct (ok r) eqn:Hokr; simpl.
    + unfold responseJson. by destruct (json r).
    + rewrite last_snoc. intros [= _ <-]. congruence.
Qed.

End WriteFacts.

(** ** Local search *)

Section SearchFacts.
Context (env : Env).

Lemma filterM_sound (pred : JsValue -> Outcome bool) (ms l : list JsValue) :
  filterM pred ms = Return l ->
  forall m, m ∈ l -> m ∈ ms /\ pred m = Return true.
Proof.
  revert l. induction ms as [|x ms IH]; intros l Hrun m Hm; simpl in Hrun.
  - inversion Hrun; subst. by apply elem_of_nil in Hm.
  - destruct (pred x) as [b|e] eqn:Hx; [|done].
    destruct (filterM pred ms) as [r|e]; [|done].
    inversion Hrun; subst. destruct b.
    + apply elem_of_cons in Hm as [->|Hm].
      * split; [apply list_elem_of_here|done].
      * destruct (IH r eq_refl m Hm). split; [by apply list_elem_of_further|done].
    + destruct (IH r eq_refl m Hm). split; [by apply list_elem_of_further|done].
Qed.

(** The predicate never throws on a list of objects whose [Name], when
    truthy, is a string: then the search returns a list. *)
Lemma filterM_total (pred : JsValue -> Outcome bool) (ms : list JsValue) :
  (forall m, m ∈ ms -> exists b, pred m = Return b) ->
  exists l, filterM pred ms = Return l.
Proof.
  induction ms as [|x ms IH]; intros Hall; simpl; [eauto|].
  destruct (Hall x) as [b ->]; [apply list_elem_of_here|].
  destruct IH as [r ->]; [|eauto].
  intros m Hm. apply Hall. by apply list_elem_of_further.
Qed.

Lemma memberMatches_true (q : string) (m : JsValue) :
  memberMatches env q m = Return true ->
  exists s, getProp m "Name" = Return (JStr s) /\ s <> ""
            /\ includes (toLowerCase env s) q = true.
Proof.
  unfold memberMatches. destruct (getProp m "Name") as [n|e]; [|done].
  destruct (truthy n) eqn:Htruthy; [|done].
  destruct n as [| |b|z|s|xs|props]; try done.
  intros [= Hinc]. exists s. repeat split; [|done].
  intros ->. done.
Qed.

(** C10: over a cached member list [ms], a search with a non-empty
    query only returns elements of [ms] whose [Name] is a non-empty
    string containing the query (case-folded), so never a record
    without a [Name]; a search with the empty query returns [ms]
    itself, whatever its records hold. *)
Theorem searchMembers_skips_nameless
    (w : World) (e : CacheEntry) (ms : list JsValue) :
  memory w !! membersKey = Some e ->
  data e = JArr ms ->
  searchMembers env "" w = (Return (JArr ms), w)
  /\ (forall q r w',
        q <> "" ->
        searchMembers env q w = (Return r, w') ->
        exists l,
          r = JArr l /\ w' = w
          /\ forall m, m ∈ l ->
               m ∈ ms
               /\ exists s, getProp m "Name" = Return (JStr s) /\ s <> ""
                    /\ includes (toLowerCase env s) (toLowerCase env q) = true).
Proof.
  intros Hentry Hdata.
  assert (Hcached : getCached (getCacheKey ENDPOINTS_MEMBERS []) w = (Return (JArr ms), w)).
  { unfold getCached. fold membersKey. by rewrite Hentry, Hdata. }
  split.
  - unfold searchMembers, bind. by rewrite Hcached.
  - intros q r w' Hq. unfold searchMembers, bind. rewrite Hcached. simpl.
    assert (Hne : String.eqb q "" = false) by by apply String.eqb_neq.
    rewrite Hne. simpl. unfold liftOutcome.
    destruct (filterM (memberMatches env (toLowerCase env q)) ms) as [l|err] eqn:Hrun;
      [|done].
    intros [= <- <-]. exists l. split; [done|]. split; [done|].
    intros m Hm. destruct (filterM_sound _ _ _ Hrun m Hm) as [Hin Hpred].
    split; [done|]. by apply memberMatches_true.
Qed.

End SearchFacts.

(** ** Concrete runs of the stated properties *)

Lemma fetch_hit_witness :
  forceRefresh unforced = false
  /\ memory freshWorld !! getCacheKey "X" (filters unforced)
     = Some {| data := JArr [alice]; expiresAt := 1000 |}
  /\ ~ (now freshWorld > 1000)
  /\ fetch (scripted [] []) "X" unforced freshWorld = (Return (JArr [alice]), freshWorld)
  /\ traffic (fetch (scripted [] []) "X" unforced freshWorld).2 = []
  /\ memory (fetch (scripted [] []) "X" unforced freshWorld).2 = memory freshWorld.
Proof.
  assert (H1 : forceRefresh unforced = false) by reflexivity.
  assert (H2 : memory freshWorld !! getCacheKey "X" (filters unforced)
               = Some {| data := JArr [alice]; expiresAt := 1000 |}) by reflexivity.
  assert (H3 : ~ (now freshWorld > 1000)) by (simpl; lia).
  split; [exact H1|]. split; [exact H2|]. split; [exact H3|].
  exact (fetch_hit (scripted [] []) "X" unforced freshWorld _ H1 H2 H3).
Defined.

Lemma failed_write_invalidates_nothing_witness :
  let env := scripted [(5, errorResponse)] [] in
  let run := runWrite env (AddLoan bobLoan) cachedWorld in
  let rq := {| url := ENDPOINTS_LOANS; reqMethod := "POST"; headers := jsonHeaders;
               reqBody := Some (dataRows bobLoan) |} in
  last (traffic run.2) = Some (rq, Resolves errorHttp)
  /\ ok errorHttp = false
  /\ isThrow run.1
  /\ (forall k, is_Some (memory cachedWorld !! k) -> is_Some (memory run.2 !! k))
  /\ (isUpdateMember (AddLoan bobLoan) = false -> memory run.2 = memory cachedWorld)
  /\ (isUpdateMember (AddLoan bobLoan) = true ->
      memory run.2 = memory (getMembers env true cachedWorld).2).
Proof.
  intros env run rq.
  assert (H1 : last (traffic run.2) = Some (rq, Resolves errorHttp)) by reflexivity.
  assert (H2 : ok errorHttp = false) by reflexivity.
  split; [exact H1|]. split; [exact H2|].
  exact (failed_write_invalidates_nothing env (AddLoan bobLoan) cachedWorld rq errorHttp H1 H2).
Defined.

Lemma unsubscribe_removes_every_registration_witness :
  let key := getCacheKey "X" [] in
  listeners subscribedWorld !! key = Some [7%nat; 8%nat; 7%nat]
  /\ exists h w',
       (onUpdate key 7%nat emptyWorld).1 = Return h
       /\ unsubscribe h subscribedWorld = (Return tt, w')
       /\ listeners w' !! key = Some [8%nat].
Proof.
  intros key.
  assert (H1 : listeners subscribedWorld !! key = Some [7%nat; 8%nat; 7%nat]) by reflexivity.
  split; [exact H1|].
  destruct (unsubscribe_removes_every_registration key 7%nat emptyWorld subscribedWorld _ H1)
    as (h & w' & Hh & Hrun & Hl & _).
  exists h, w'. split; [exact Hh|]. split; [exact Hrun|]. exact Hl.
Defined.

Lemma refresh_notifies_until_first_throw_witness :
  let env := scripted [(5, okResponse (JArr [alice]))] [1%nat] in
  let key := getCacheKey "X" (filters forced) in
  let r := {| ok := true; statusText := "OK"; json := Some (JArr [alice]) |} in
  listeners twoListeners !! key = Some [1%nat; 2%nat]
  /\ forceRefresh forced = true
  /\ transport env (length (traffic twoListeners)) (fetchRequest "X" forced) = (5, Resolves r)
  /\ exists w',
       fetch env "X" forced twoListeners = (Return (JArr [alice]), w')
       /\ memory w' !! key = Some {| data := JArr [alice]; expiresAt := 0 + 5 + 1000 |}
       /\ fired w' = [(1%nat, JArr [alice])].
Proof.
  intros env key r.
  assert (H1 : listeners twoListeners !! key = Some [1%nat; 2%nat]) by reflexivity.
  assert (H2 : forceRefresh forced = true) by reflexivity.
  assert (H3 : transport env (length (traffic twoListeners)) (fetchRequest "X" forced)
               = (5, Resolves r)) by reflexivity.
  split; [exact H1|]. split; [exact H2|]. split; [exact H3|].
  destruct (refresh_notifies_until_first_throw env "X" forced twoListeners 5 r
              (JArr [alice]) [1%nat; 2%nat] H1 (or_introl H2) H3 eq_refl eq_refl)
    as (w' & Hrun & Hmem & _ & Hfired & _).
  exists w'. split; [exact Hrun|]. split; [exact Hmem|]. exact Hfired.
Defined.

Lemma updateMember_not_found_witness :
  let env := scripted [(5, okResponse (JArr [bob; carolNoId]))] [] in
  let w1 := (getMembers env true emptyWorld).2 in
  getMembers env true emptyWorld = (Return (JArr [bob; carolNoId]), w1)
  /\ (forall m, m ∈ [bob; carolNoId] -> nameIs "Alice" m = Return false)
  /\ updateMember env "Alice" [("Status", JStr "Inactive")] emptyWorld
     = (Throw (notFound "Alice"), w1)
  /\ (exists res,
        traffic w1 = traffic emptyWorld ++
                     [(fetchRequest ENDPOINTS_MEMBERS membersForced, res)])
  /\ (exists e, memory w1 !! membersKey = Some e /\ data e = JArr [bob; carolNoId]).
Proof.
  intros env w1.
  assert (H1 : getMembers env true emptyWorld = (Return (JArr [bob; carolNoId]), w1))
    by reflexivity.
  assert (H2 : forall m, m ∈ [bob; carolNoId] -> nameIs "Alice" m = Return false).
  { intros m Hm. apply elem_of_cons in Hm as [->|Hm]; [reflexivity|].
    apply elem_of_cons in Hm as [->|Hm]; [reflexivity|]. by apply elem_of_nil in Hm. }
  split; [exact H1|]. split; [exact H2|].
  exact (updateMember_not_found env "Alice" [("Status", JStr "Inactive")] emptyWorld w1
           [bob; carolNoId] H1 (or_introl H2)).
Defined.

Lemma deleteTransactionById_keeps_cache_witness :
  let env := scripted [(5, okResponse (JObj [("deleted", JNum 1)]))] [] in
  let run := deleteTransactionById env (JStr "7") cachedWorld in
  let rq := {| url := BASE_URL +:+ "?sheet=Transactions&Id=7"; reqMethod := "DELETE";
               headers := []; reqBody := None |} in
  let resp := {| ok := true; statusText := "OK";
                 json := Some (JObj [("deleted", JNum 1)]) |} in
  last (traffic run.2) = Some (rq, Resolves resp)
  /\ run.1 = Return (JObj [("deleted", JNum 1)])
  /\ memory run.2 = memory cachedWorld
  /\ memory run.2 !! transactionsKey = memory cachedWorld !! transactionsKey
  /\ (getCached transactionsKey run.2).1 = (getCached transactionsKey cachedWorld).1
  /\ (forall memberName,
        (searchTransactions memberName run.2).1 =
        (searchTransactions memberName cachedWorld).1).
Proof.
  intros env run rq resp.
  assert (H1 : last (traffic run.2) = Some (rq, Resolves resp)) by reflexivity.
  split; [exact H1|].
  exact (deleteTransactionById_keeps_cache env (JStr "7") cachedWorld rq resp
           (JObj [("deleted", JNum 1)]) H1 eq_refl eq_refl).
Defined.

Lemma searchMembers_skips_nameless_witness :
  let env := scripted [] [] in
  let e := {| data := JArr [alice; nameless; bob]; expiresAt := CACHE_TTL_MEMBERS |} in
  memory cachedWorld !! membersKey = Some e
  /\ searchMembers env "" cachedWorld = (Return (JArr [alice; nameless; bob]), cachedWorld)
  /\ searchMembers env "ALI" cachedWorld = (Return (JArr [alice]), cachedWorld)
  /\ (forall q r w',
        q <> "" ->
        searchMembers env q cachedWorld = (Return r, w') ->
        exists l,
          r = JArr l /\ w' = cachedWorld
          /\ forall m, m ∈ l ->
               m ∈ [alice; nameless; bob]
               /\ exists s, getProp m "Name" = Return (JStr s) /\ s <> ""
                    /\ includes (toLowerCase env s) (toLowerCase env q) = true).
Proof.
  intros env e.
  assert (H1 : memory cachedWorld !! membersKey = Some e) by reflexivity.
  split; [exact H1|].
  destruct (searchMembers_skips_nameless env cachedWorld e [alice; nameless; bob] H1 eq_refl)
    as [Hall Hfilter].
  split; [exact Hall|]. split; [reflexivity|]. exact Hfilter.
Defined.

(** A member found by name but without an [Id] is not found either, and
    no write is attempted. *)
Example updateMember_missing_id :
  let env := scripted [(5, okResponse (JArr [bob; carolNoId]))] [] in
  let run := updateMember env "Carol" [("Status", JStr "Inactive")] emptyWorld in
  run.1 = Throw (notFound "Carol")
  /\ length (traffic run.2) = 1%nat
  /\ is_Some (memory run.2 !! membersKey).
Proof. repeat split; try reflexivity. by eexists. Qed.

(** C4, as stated, fails for [updateMember]: its forced member read
    succeeds and stores the list, then the write comes back with a
    non-success status; the operation raises, but the store is no longer
    the store before the operation. *)
Lemma updateMember_failure_changes_store :
  let env := scripted [(5, okResponse (JArr [alice])); (7, errorResponse)] [] in
  let run := updateMember env "Alice" [("Status", JStr "Inactive")] emptyWorld in
  (exists rq, last (traffic run.2) = Some (rq, Resolves errorHttp)
              /\ reqMethod rq = "PUT" /\ ok errorHttp = false)
  /\ run.1 = Throw (Error "Failed to update member")
  /\ memory emptyWorld !! membersKey = None
  /\ memory run.2 !! membersKey
     = Some {| data := JArr [alice]; expiresAt := 5 + CACHE_TTL_MEMBERS |}
  /\ memory run.2 <> memory emptyWorld.
Proof.
  intros env run.
  assert (Hentry : memory run.2 !! membersKey
                   = Some {| data := JArr [alice]; expiresAt := 5 + CACHE_TTL_MEMBERS |})
    by reflexivity.
  split. { eexists. split; [reflexivity|]. split; reflexivity. }
  split; [reflexivity|]. split; [reflexivity|]. split; [exact Hentry|].
  intros Heq. rewrite Heq in Hentry. discriminate Hentry.
Qed.

(** * Further properties of the cache *)

Section MoreFetchFacts.
Context (env : Env).

(** X1: when no entry exists for the key and the remote call fails,
    [fetch] raises the failure of the [try] block, forced or not, and
    stores nothing: the state only gains the logged call. *)
Theorem fetch_no_entry_failure_raises
    (endpoint : string) (o : FetchOptions) (w : World)
    (elapsed : Z) (res : TransportResult) (err : Exception) :
  memory w !! getCacheKey endpoint (filters o) = None ->
  transport env (length (traffic w)) (fetchRequest endpoint o) = (elapsed, res) ->
  remoteFailure res = Some err ->
  fetch env endpoint o w =
  (Throw err, recordCall (fetchRequest endpoint o) elapsed res w).
Proof.
  intros Hnone Hnet Hfail.
  assert (Hmiss : forceRefresh o = true \/
            (forall e, memory w !! getCacheKey endpoint (filters o) = Some e ->
                       expiresAt e <> 0 /\ now w > expiresAt e)).
  { right. intros e He. congruence. }
  unfold fetch, bind.
  assert (Hcheck : (if forceRefresh o then ret false
                    else isValidCache (getCacheKey endpoint (filters o))) w
                   = (Return false, w)).
  { destruct (forceRefresh o); [done|]. unfold isValidCache. by rewrite Hnone. }
  rewrite Hcheck.
  rewrite (fetch_try_failure env endpoint o w elapsed res err Hnet Hfail).
  unfold fetchCatch. simpl. by rewrite Hnone.
Qed.

(** X2: an unforced [fetch] on an entry whose expiry has passed issues
    one remote call and, when it succeeds, replaces the entry: the new
    expiry is counted from the arrival of the response, not from the
    call. *)
Theorem fetch_expired_refetches
    (endpoint : string) (o : FetchOptions) (w : World) (e : CacheEntry)
    (elapsed : Z) (r : HttpResponse) (d : JsValue) :
  let key := getCacheKey endpoint (filters o) in
  forceRefresh o = false ->
  memory w !! key = Some e ->
  expiresAt e <> 0 ->
  now w > expiresAt e ->
  transport env (length (traffic w)) (fetchRequest endpoint o) = (elapsed, Resolves r) ->
  ok r = true ->
  json r = Some d ->
  exists w',
    fetch env endpoint o w = (Return d, w')
    /\ traffic w' = traffic w ++ [(fetchRequest endpoint o, Resolves r)]
    /\ now w' = now w + elapsed
    /\ memory w' !! key = Some {| data := d; expiresAt := now w + elapsed + ttl o |}.
Proof.
  intros key Hforce Hentry Hnz Hgt Hnet Hok Hjson.
  exists (refreshed env key (fetchRequest endpoint o) elapsed r d (ttl o) w).
  split.
  - apply fetch_refresh; try done. right. intros e' He'.
    subst key. rewrite Hentry in He'. by inversion He'; subst.
  - simpl. by rewrite lookup_insert_eq.
Qed.


(** X4: an entry whose [expiresAt] is 0 never expires: the guard
    [expiresAt && ...] is falsy, so an unforced [fetch] hits at every
    clock value and the state is unchanged. *)
Theorem zero_expiry_never_expires
    (endpoint : string) (o : FetchOptions) (w : World) (e : CacheEntry) :
  forceRefresh o = false ->
  memory w !! getCacheKey endpoint (filters o) = Some e ->
  expiresAt e = 0 ->
  fetch env endpoint o w = (Return (data e), w).
Proof.
  intros Hforce Hentry Hzero.
  unfold fetch, bind. rewrite Hforce. unfold isValidCache. rewrite Hentry, Hzero.
  simpl. unfold getCached. by rewrite Hentry.
Qed.

End MoreFetchFacts.

Lemma fetch_no_entry_failure_raises_witness :
  let env := scripted [(5, errorResponse)] [] in
  memory emptyWorld !! getCacheKey "X" (filters unforced) = None
  /\ transport env (length (traffic emptyWorld)) (fetchRequest "X" unforced)
     = (5, errorResponse)
  /\ remoteFailure errorResponse = Some (Error "API Error: Internal Server Error")
  /\ fetch env "X" unforced emptyWorld =
     (Throw (Error "API Error: Internal Server Error"),
      recordCall (fetchRequest "X" unforced) 5 errorResponse emptyWorld).
Proof.
  intros env.
  assert (H1 : memory emptyWorld !! getCacheKey "X" (filters unforced) = None)
    by reflexivity.
  assert (H2 : transport env (length (traffic emptyWorld)) (fetchRequest "X" unforced)
               = (5, errorResponse)) by reflexivity.
  assert (H3 : remoteFailure errorResponse = Some (Error "API Error: Internal Server Error"))
    by reflexivity.
  split; [exact H1|]. split; [exact H2|]. split; [exact H3|].
  exact (fetch_no_entry_failure_raises env "X" unforced emptyWorld 5 errorResponse _ H1 H2 H3).
Defined.

Lemma fetch_expired_refetches_witness :
  let env := scripted [(5, okResponse (JArr [bob]))] [] in
  let key := getCacheKey "X" (filters unforced) in
  let e := {| data := JArr [alice]; expiresAt := 10 |} in
  memory staleWorld !! key = Some e
  /\ now staleWorld > expiresAt e
  /\ exists w',
       fetch env "X" unforced staleWorld = (Return (JArr [bob]), w')
       /\ traffic w' = traffic staleWorld ++
                       [(fetchRequest "X" unforced, Resolves (okHttp (JArr [bob])))]
       /\ now w' = now staleWorld + 5
       /\ memory w' !! key
          = Some {| data := JArr [bob]; expiresAt := now staleWorld + 5 + ttl unforced |}.
Proof.
  intros env key e.
  assert (H1 : memory staleWorld !! key = Some e) by reflexivity.
  assert (H2 : now staleWorld > expiresAt e) by (simpl; lia).
  assert (H3 : expiresAt e <> 0) by (simpl; lia).
  split; [exact H1|]. split; [exact H2|].
  exact (fetch_expired_refetches env "X" unforced staleWorld e 5 (okHttp (JArr [bob]))
           (JArr [bob]) eq_refl H1 H3 H2 eq_refl eq_refl eq_refl).
Defined.

Lemma zero_expiry_never_expires_witness :
  let e := {| data := JArr [alice]; expiresAt := 0 |} in
  memory zeroExpiryWorld !! getCacheKey "X" (filters unforced) = Some e
  /\ now zeroExpiryWorld = 1000000
  /\ fetch (scripted [] []) "X" unforced zeroExpiryWorld
     = (Return (JArr [alice]), zeroExpiryWorld).
Proof.
  intros e.
  assert (H1 : memory zeroExpiryWorld !! getCacheKey "X" (filters unforced) = Some e)
    by reflexivity.
  split; [exact H1|]. split; [reflexivity|].
  exact (zero_expiry_never_expires (scripted [] []) "X" unforced zeroExpiryWorld e
           eq_refl H1 eq_refl).
Defined.

(** ** Invalidation by pattern, clearing *)

Section InvalidationFacts.
Context (env : Env).

Lemma prefix_app (q r : string) : String.prefix q (q +:+ r) = true.
Proof.
  induction q as [|a q IH].
  - change ("" +:+ r) with r. by destruct r.
  - change (String.prefix (String a q) (String a (q +:+ r)) = true). simpl.
    by destruct (ascii_dec a a).
Qed.

Lemma includes_empty (s : string) : includes s "" = true.
Proof. by destruct s. Qed.

Lemma includes_app (a b c : string) : includes (a +:+ b +:+ c) b = true.
Proof.
  induction a as [|x a IH].
  - change ("" +:+ b +:+ c) with (b +:+ c).
    assert (H : includes (b +:+ c) b = String.prefix b (b +:+ c) ||
                  match b +:+ c with
                  | EmptyString => false
                  | String _ s' => includes s' b
                  end) by by destruct (b +:+ c).
    by rewrite H, prefix_app.
  - change (includes (String x (a +:+ b +:+ c)) b = true). simpl.
    rewrite IH. apply orb_true_r.
Qed.

(** Every key [getCacheKey] builds contains its endpoint. *)
Lemma getCacheKey_includes_endpoint (endpoint : string) (fs : Filters) :
  includes (getCacheKey endpoint fs) endpoint = true.
Proof. unfold getCacheKey. apply includes_app. Qed.

Lemma invalidatePattern_lookup (pattern k : string) (w : World) :
  memory (invalidatePattern pattern w).2 !! k =
  if includes k pattern then None else memory w !! k.
Proof.
  simpl. destruct (includes k pattern) eqn:Hinc.
  - apply eq_None_not_Some. intros [x Hx].
    apply map_lookup_filter_Some in Hx as [_ Hp]. simpl in Hp. congruence.
  - apply option_eq. intros x. rewrite map_lookup_filter_Some. simpl. tauto.
Qed.

(** X5: [invalidatePattern] removes every entry whose key contains the
    pattern and keeps every other entry as it is; it never raises and
    leaves the subscribers alone. *)
Theorem invalidatePattern_removes_matching (pattern : string) (w : World) :
  (invalidatePattern pattern w).1 = Return tt
  /\ (forall k,
        memory (invalidatePattern pattern w).2 !! k =
        if includes k pattern then None else memory w !! k)
  /\ listeners (invalidatePattern pattern w).2 = listeners w.
Proof.
  split; [done|]. split; [|done].
  intros k. apply invalidatePattern_lookup.
Qed.

(** X6: [invalidatePattern] called with an endpoint removes the entry
    of every filtered variant of that endpoint, whatever the filters. *)
Theorem invalidatePattern_endpoint_clears_variants
    (endpoint : string) (fs : Filters) (w : World) :
  memory (invalidatePattern endpoint w).2 !! getCacheKey endpoint fs = None.
Proof.
  rewrite invalidatePattern_lookup. by rewrite getCacheKey_includes_endpoint.
Qed.

(** X7: the empty pattern is contained in every key, so
    [invalidatePattern("")] does what [clear] does. *)
Theorem invalidatePattern_empty_is_clear (w : World) :
  invalidatePattern "" w = clear w.
Proof.
  unfold invalidatePattern, clear. f_equal. f_equal.
  apply map_eq. intros k. rewrite lookup_empty.
  apply eq_None_not_Some. intros [x Hx].
  apply map_lookup_filter_Some in Hx as [_ Hp]. simpl in Hp.
  by rewrite includes_empty in Hp.
Qed.

(** X8: [clear] empties the store but keeps the subscribers: the next
    [fetch] of any key, forced or not, goes to the remote resource, and
    when it succeeds the callbacks registered before the clear are
    notified. *)
Theorem clear_keeps_subscribers
    (endpoint : string) (o : FetchOptions) (w : World)
    (elapsed : Z) (r : HttpResponse) (d : JsValue) :
  let key := getCacheKey endpoint (filters o) in
  transport env (length (traffic w)) (fetchRequest endpoint o) = (elapsed, Resolves r) ->
  ok r = true ->
  json r = Some d ->
  exists w',
    fetch env endpoint o (clear w).2 = (Return d, w')
    /\ traffic w' = traffic w ++ [(fetchRequest endpoint o, Resolves r)]
    /\ listeners w' = listeners w
    /\ fired w' = fired w ++
                  map (fun cb => (cb, d))
                      (invokedPrefix (fun cb => callbackThrows env cb d)
                                     (default [] (listeners w !! key))).
Proof.
  intros key Hnet Hok Hjson.
  exists (refreshed env key (fetchRequest endpoint o) elapsed r d (ttl o) (clear w).2).
  split; [|done].
  apply fetch_refresh; try done.
  right. intros e He. simpl in He. by rewrite lookup_empty in He.
Qed.

End InvalidationFacts.

Lemma clear_keeps_subscribers_witness :
  let env := scripted [(5, okResponse (JArr [alice]))] [] in
  let key := getCacheKey "X" (filters unforced) in
  transport env (length (traffic twoListeners)) (fetchRequest "X" unforced)
  = (5, Resolves (okHttp (JArr [alice])))
  /\ exists w',
       fetch env "X" unforced (clear twoListeners).2 = (Return (JArr [alice]), w')
       /\ traffic w' = [(fetchRequest "X" unforced, Resolves (okHttp (JArr [alice])))]
       /\ listeners w' = listeners twoListeners
       /\ fired w' = [(1%nat, JArr [alice]); (2%nat, JArr [alice])].
Proof.
  intros env key.
  assert (H1 : transport env (length (traffic twoListeners)) (fetchRequest "X" unforced)
               = (5, Resolves (okHttp (JArr [alice])))) by reflexivity.
  split; [exact H1|].
  exact (clear_keeps_subscribers env "X" unforced twoListeners 5 (okHttp (JArr [alice]))
           (JArr [alice]) H1 eq_refl eq_refl).
Defined.

(** ** Reads after reads, and what a read leaves alone *)

Section ReadComposition.
Context (env : Env).

Lemma fetch_valid_entry (endpoint : string) (o : FetchOptions) (w : World) (e : CacheEntry) :
  forceRefresh o = false ->
  memory w !! getCacheKey endpoint (filters o) = Some e ->
  now w <= expiresAt e ->
  fetch env endpoint o w = (Return (data e), w).
Proof.
  intros Hforce Hentry Hfresh.
  unfold fetch, bind. rewrite Hforce. unfold isValidCache. rewrite Hentry.
  assert (Hgt : (now w >? expiresAt e) = false)
    by (rewrite Z.gtb_ltb; apply Z.ltb_ge; lia).
  rewrite Hgt, andb_false_r. unfold getCached. by rewrite Hentry.
Qed.

(** X9: after a successful refresh with a non-negative [ttl], an
    unforced [fetch] of the same endpoint and filters at once returns the
    same payload from the store, with no remote call and no
    notification. *)
Theorem refresh_then_fetch_hits
    (endpoint : string) (o o' : FetchOptions) (w : World)
    (elapsed : Z) (r : HttpResponse) (d : JsValue) :
  let key := getCacheKey endpoint (filters o) in
  forceRefresh o = true \/
  (forall e, memory w !! key = Some e -> expiresAt e <> 0 /\ now w > expiresAt e) ->
  transport env (length (traffic w)) (fetchRequest endpoint o) = (elapsed, Resolves r) ->
  ok r = true ->
  json r = Some d ->
  0 <= ttl o ->
  filters o' = filters o ->
  forceRefresh o' = false ->
  exists w',
    fetch env endpoint o w = (Return d, w')
    /\ fetch env endpoint o' w' = (Return d, w').
Proof.
  intros key Hmiss Hnet Hok Hjson Httl Hfilters Hforce'.
  exists (refreshed env key (fetchRequest endpoint o) elapsed r d (ttl o) w).
  split; [by apply fetch_refresh|].
  apply (fetch_valid_entry endpoint o' _
           {| data := d; expiresAt := now w + elapsed + ttl o |}); try done.
  - rewrite Hfilters. simpl. by rewrite lookup_insert_eq.
  - simpl. lia.
Qed.

(** The [try]/[catch] of [fetch] logs one call and writes at most its
    own key. *)
Lemma fetch_try_frame (endpoint : string) (o : FetchOptions) (w1 : World) :
  let key := getCacheKey endpoint (filters o) in
  let w' := (tryCatch (fetchRemote env endpoint key o) (fetchCatch key) w1).2 in
  listeners w' = listeners w1
  /\ (forall k, k <> key -> memory w' !! k = memory w1 !! k)
  /\ traffic w' = traffic w1 ++
       [(fetchRequest endpoint o,
         (transport env (length (traffic w1)) (fetchRequest endpoint o)).2)].
Proof.
  intros key w'. subst w' key.
  destruct (transport env (length (traffic w1)) (fetchRequest endpoint o))
    as [elapsed res] eqn:Hnet.
  destruct (remoteFailure res) as [err|] eqn:Hfail.
  - rewrite (fetch_try_failure env endpoint o w1 elapsed res err Hnet Hfail).
    unfold fetchCatch. simpl. by destruct (memory w1 !! _).
  - destruct res as [reason|r]; [done|]. simpl in Hfail.
    destruct (ok r) eqn:Hok; [|done]. simpl in Hfail.
    destruct (json r) as [d|] eqn:Hjson; [|done].
    rewrite (fetch_try_success env endpoint o w1 elapsed r d Hnet Hok Hjson). simpl.
    split; [done|]. split; [|done]. intros k Hk. by rewrite lookup_insert_ne.
Qed.

(** X10: whatever happens (hit, refresh, fallback or failure), a
    [fetch] never changes the subscribers, never touches the entry of
    another key, and logs at most one remote call after the ones already
    logged. *)
Theorem fetch_touches_only_its_key (endpoint : string) (o : FetchOptions) (w : World) :
  let key := getCacheKey endpoint (filters o) in
  let w' := (fetch env endpoint o w).2 in
  listeners w' = listeners w
  /\ (forall k, k <> key -> memory w' !! k = memory w !! k)
  /\ exists calls, traffic w' = traffic w ++ calls /\ (length calls <= 1)%nat.
Proof.
  intros key w'. subst w'.
  assert (Hcases :
    (exists e, forceRefresh o = false /\ memory w !! key = Some e
               /\ fetch env endpoint o w = (Return (data e), w))
    \/ (forceRefresh o = true \/
        (forall e, memory w !! key = Some e -> expiresAt e <> 0 /\ now w > expiresAt e))).
  { destruct (forceRefresh o) eqn:Hforce; [right; by left|].
    destruct (memory w !! key) as [e|] eqn:Hentry; [|right; right; by intros e].
    destruct (negb (expiresAt e =? 0) && (now w >? expiresAt e)) eqn:Hexp.
    - right. right. intros e' [= <-].
      apply andb_prop in Hexp as [Hnz Hgt].
      apply negb_true_iff, Z.eqb_neq in Hnz.
      rewrite Z.gtb_ltb in Hgt. apply Z.ltb_lt in Hgt. lia.
    - left. exists e. split; [done|]. split; [done|].
      unfold fetch, bind. rewrite Hforce. unfold isValidCache. fold key.
      rewrite Hentry, Hexp. unfold getCached. by rewrite Hentry. }
  destruct Hcases as [(e & _ & _ & ->)|Hmiss].
  - simpl. split; [done|]. split; [done|]. exists [].
    split; [by rewrite app_nil_r|simpl; lia].
  - destruct (fetch_miss_unfold env endpoint o w Hmiss)
      as (w1 & -> & Hl & _ & Ht & _ & Hm).
    destruct (fetch_try_frame endpoint o w1) as (Hl' & Hm' & Ht').
    split; [by rewrite Hl'|]. split.
    + intros k Hk. rewrite (Hm' k Hk).
      destruct Hm as [->|[_ ->]]; [done|]. by rewrite lookup_delete_ne.
    + eexists. rewrite Ht', Ht. split; [done|]. simpl. lia.
Qed.

End ReadComposition.

Lemma refresh_then_fetch_hits_witness :
  let env := scripted [(5, okResponse (JArr [alice]))] [] in
  forceRefresh forced = true
  /\ transport env (length (traffic emptyWorld)) (fetchRequest "X" forced)
     = (5, Resolves (okHttp (JArr [alice])))
  /\ 0 <= ttl forced
  /\ exists w',
       fetch env "X" forced emptyWorld = (Return (JArr [alice]), w')
       /\ fetch env "X" unforced w' = (Return (JArr [alice]), w').
Proof.
  intros env.
  assert (H1 : forceRefresh forced = true) by reflexivity.
  assert (H2 : transport env (length (traffic emptyWorld)) (fetchRequest "X" forced)
               = (5, Resolves (okHttp (JArr [alice])))) by reflexivity.
  assert (H3 : 0 <= ttl forced) by (simpl; lia).
  split; [exact H1|]. split; [exact H2|]. split; [exact H3|].
  exact (refresh_then_fetch_hits env "X" forced unforced emptyWorld 5
           (okHttp (JArr [alice])) (JArr [alice]) (or_introl H1) H2 eq_refl eq_refl H3
           eq_refl eq_refl).
Defined.

(** ** Subscribing and unsubscribing *)

Section MoreSubscriptionFacts.
Context (env : Env).

(** X11: [onUpdate] appends: on the next successful refresh of the key
    in which no callback throws, the callbacks registered earlier fire
    first, in their order, and the new one fires last, each once and with
    the new payload. *)
Theorem new_subscriber_fires_last
    (endpoint : string) (o : FetchOptions) (cb : CallbackRef) (w : World)
    (elapsed : Z) (r : HttpResponse) (d : JsValue) :
  let key := getCacheKey endpoint (filters o) in
  let earlier := default [] (listeners w !! key) in
  let w1 := (onUpdate key cb w).2 in
  forceRefresh o = true \/
  (forall e, memory w !! key = Some e -> expiresAt e <> 0 /\ now w > expiresAt e) ->
  transport env (length (traffic w)) (fetchRequest endpoint o) = (elapsed, Resolves r) ->
  ok r = true ->
  json r = Some d ->
  (forall c, c ∈ earlier ++ [cb] -> callbackThrows env c d = false) ->
  exists w',
    fetch env endpoint o w1 = (Return d, w')
    /\ fired w' = fired w ++ map (fun c => (c, d)) (earlier ++ [cb]).
Proof.
  intros key earlier w1 Hmiss Hnet Hok Hjson Hquiet.
  exists (refreshed env key (fetchRequest endpoint o) elapsed r d (ttl o) w1).
  split; [by apply fetch_refresh|].
  unfold refreshed. simpl. rewrite lookup_insert_eq. simpl. fold earlier.
  by rewrite invokedPrefix_all.
Qed.

Lemma filter_other_callbacks (cb : CallbackRef) (l : list CallbackRef) :
  cb ∉ l -> filter (fun c => c <> cb) (l ++ [cb]) = l.
Proof.
  intros Hnotin. rewrite filter_app.
  rewrite (filter_cons_False (fun c => c <> cb)) by tauto.
  rewrite filter_nil, app_nil_r.
  induction l as [|x l IH]; [done|].
  apply not_elem_of_cons in Hnotin as [Hx Hl].
  rewrite filter_cons_True by done. by rewrite IH.
Qed.

(** X12: subscribing a callback that was not yet registered for the key
    and calling the returned handle restores, for every key, the list of
    callbacks that would be notified; the store is untouched.  (A key
    that had no list keeps an empty one.) *)
Theorem subscribe_unsubscribe_roundtrip (key : string) (cb : CallbackRef) (w : World) :
  cb ∉ default [] (listeners w !! key) ->
  exists h w1 w2,
    onUpdate key cb w = (Return h, w1)
    /\ unsubscribe h w1 = (Return tt, w2)
    /\ (forall k, default [] (listeners w2 !! k) = default [] (listeners w !! k))
    /\ memory w2 = memory w.
Proof.
  intros Hnotin.
  eexists _, _, _. split; [reflexivity|].
  split. { unfold unsubscribe. simpl. rewrite lookup_insert_eq. reflexivity. }
  split; [|done].
  intros k. simpl. rewrite insert_insert_eq.
  destruct (decide (k = key)) as [->|Hne].
  - rewrite lookup_insert_eq. simpl. by apply filter_other_callbacks.
  - by rewrite lookup_insert_ne.
Qed.

Lemma filter_callbacks_idem (cb : CallbackRef) (l : list CallbackRef) :
  filter (fun c => c <> cb) (filter (fun c => c <> cb) l) = filter (fun c => c <> cb) l.
Proof.
  induction l as [|x l IH]; [done|].
  destruct (decide (x = cb)) as [->|Hx].
  - by rewrite (filter_cons_False (fun c => c <> cb) cb l) by tauto.
  - rewrite (filter_cons_True (fun c => c <> cb) x l) by done.
    rewrite (filter_cons_True (fun c => c <> cb) x _) by done. by rewrite IH.
Qed.

(** X13: calling an unsubscribe handle a second time returns normally
    and changes nothing. *)
Theorem unsubscribe_twice (h : Unsubscribe) (w : World) (l : list CallbackRef) :
  listeners w !! unsubKey h = Some l ->
  unsubscribe h (unsubscribe h w).2 = (Return tt, (unsubscribe h w).2).
Proof.
  intros Hl. unfold unsubscribe at 2 3. rewrite Hl. simpl.
  unfold unsubscribe. simpl. rewrite lookup_insert_eq.
  unfold setListeners. simpl. by rewrite insert_insert_eq, filter_callbacks_idem.
Qed.

End MoreSubscriptionFacts.

Lemma new_subscriber_fires_last_witness :
  let env := scripted [(5, okResponse (JArr [alice]))] [] in
  let key := getCacheKey "X" (filters forced) in
  let w1 := (onUpdate key 3%nat twoListeners).2 in
  forceRefresh forced = true
  /\ transport env (length (traffic twoListeners)) (fetchRequest "X" forced)
     = (5, Resolves (okHttp (JArr [alice])))
  /\ (forall c, c ∈ [1%nat; 2%nat] ++ [3%nat] ->
                callbackThrows env c (JArr [alice]) = false)
  /\ exists w',
       fetch env "X" forced w1 = (Return (JArr [alice]), w')
       /\ fired w' = [(1%nat, JArr [alice]); (2%nat, JArr [alice]); (3%nat, JArr [alice])].
Proof.
  intros env key w1.
  assert (H1 : forceRefresh forced = true) by reflexivity.
  assert (H2 : transport env (length (traffic twoListeners)) (fetchRequest "X" forced)
               = (5, Resolves (okHttp (JArr [alice])))) by reflexivity.
  assert (H3 : forall c, c ∈ [1%nat; 2%nat] ++ [3%nat] ->
                         callbackThrows env c (JArr [alice]) = false)
    by (intros c _; reflexivity).
  split; [exact H1|]. split; [exact H2|]. split; [exact H3|].
  exact (new_subscriber_fires_last env "X" forced 3%nat twoListeners 5
           (okHttp (JArr [alice])) (JArr [alice]) (or_introl H1) H2 eq_refl eq_refl H3).
Defined.

Lemma subscribe_unsubscribe_roundtrip_witness :
  let key := getCacheKey "X" [] in
  (3%nat ∉ default [] (listeners twoListeners !! key))
  /\ exists h w1 w2,
       onUpdate key 3%nat twoListeners = (Return h, w1)
       /\ unsubscribe h w1 = (Return tt, w2)
       /\ (forall k, default [] (listeners w2 !! k) = default [] (listeners twoListeners !! k))
       /\ memory w2 = memory twoListeners.
Proof.
  intros key.
  assert (H1 : 3%nat ∉ default [] (listeners twoListeners !! key)).
  { apply not_elem_of_cons. split; [lia|].
    apply not_elem_of_cons. split; [lia|]. apply not_elem_of_nil. }
  split; [exact H1|].
  exact (subscribe_unsubscribe_roundtrip key 3%nat twoListeners H1).
Defined.

Lemma unsubscribe_twice_witness :
  let h := {| unsubKey := getCacheKey "X" []; unsubCallback := 7%nat |} in
  listeners subscribedWorld !! unsubKey h = Some [7%nat; 8%nat; 7%nat]
  /\ listeners (unsubscribe h subscribedWorld).2 !! unsubKey h = Some [8%nat]
  /\ unsubscribe h (unsubscribe h subscribedWorld).2
     = (Return tt, (unsubscribe h subscribedWorld).2).
Proof.
  intros h.
  assert (H1 : listeners subscribedWorld !! unsubKey h = Some [7%nat; 8%nat; 7%nat])
    by reflexivity.
  split; [exact H1|]. split; [reflexivity|].
  exact (unsubscribe_twice h subscribedWorld _ H1).
Defined.

(** ** Cache keys of the resources *)

Lemma append_empty_r (a : string) : a +:+ "" = a.
Proof.
  induction a as [|x a IH]; [done|].
  change (String x (a +:+ "") = String x a). by rewrite IH.
Qed.

Lemma append_inj_r (p a b : string) : p +:+ a = p +:+ b -> a = b.
Proof.
  induction p as [|x p IH]; [done|].
  change (String x (p +:+ a) = String x (p +:+ b) -> a = b).
  intros [= H]. by apply IH.
Qed.

Lemma getCacheKey_no_filters (endpoint : string) :
  getCacheKey endpoint [] = CACHE_KEY_PREFIX +:+ endpoint.
Proof. unfold getCacheKey. simpl. by rewrite append_empty_r. Qed.

Lemma getCacheKey_no_filters_inj (e1 e2 : string) :
  getCacheKey e1 [] = getCacheKey e2 [] -> e1 = e2.
Proof. rewrite !getCacheKey_no_filters. apply append_inj_r. Qed.

(** X14: without filters the key is the prefix followed by the
    endpoint, so two different endpoints never share an entry; in
    particular the members, transactions and loans keys are pairwise
    different. *)
Theorem getCacheKey_no_filters_injective (e1 e2 : string) :
  (getCacheKey e1 [] = getCacheKey e2 [] <-> e1 = e2)
  /\ membersKey <> transactionsKey
  /\ membersKey <> loansKey
  /\ transactionsKey <> loansKey.
Proof.
  split; [split; [apply getCacheKey_no_filters_inj|by intros ->]|].
  repeat split; intros Heq; apply getCacheKey_no_filters_inj in Heq; discriminate Heq.
Qed.

(** ** Successful writes *)

Section MoreWriteFacts.
Context (env : Env).

(** The common shape of the writes, when the remote call comes back
    with a success status. *)
Lemma write_succeeded (req : Request) (msg : string) (k : HttpResponse -> M JsValue)
    (w : World) (rq : Request) (resp : HttpResponse) :
  (forall r w1, traffic (k r w1).2 = traffic w1) ->
  let run := (let* response := remoteFetch env req in
              if negb (ok response) then throw (Error msg) else k response) w in
  last (traffic run.2) = Some (rq, Resolves resp) ->
  ok resp = true ->
  exists elapsed, run = k resp (recordCall req elapsed (Resolves resp) w).
Proof.
  intros Hk run. subst run. unfold bind, remoteFetch.
  destruct (transport env (length (traffic w)) req) as [elapsed [reason|r]] eqn:Hnet;
    simpl.
  - by rewrite last_snoc.
  - destruct (ok r) eqn:Hok; simpl.
    + rewrite Hk. simpl. rewrite last_snoc. intros [= _ <-] _. by exists elapsed.
    + rewrite last_snoc. intros [= _ <-] Hgood. congruence.
Qed.

Lemma invalidate_then_json (endpoints : list string) (r : HttpResponse) (w1 : World) :
  (foldr (fun e k => invalidate e [] ;; k) (responseJson r) endpoints) w1 =
  (decoded r,
   setMemory (fold_left (fun m e => delete (getCacheKey e []) m) endpoints (memory w1)) w1).
Proof.
  revert w1. induction endpoints as [|e endpoints IH]; intros w1; simpl.
  - unfold responseJson, decoded. destruct (json r); by destruct w1.
  - unfold bind, invalidate at 1. by rewrite IH.
Qed.

Lemma fold_delete_lookup (endpoints : list string) (m : gmap string CacheEntry) (e : string) :
  fold_left (fun m e => delete (getCacheKey e []) m) endpoints m !! getCacheKey e [] =
  if bool_decide (e ∈ endpoints) then None else m !! getCacheKey e [].
Proof.
  revert m. induction endpoints as [|x endpoints IH]; intros m; simpl; [done|].
  rewrite IH. destruct (decide (e = x)) as [->|Hne].
  - rewrite lookup_delete_eq. rewrite (bool_decide_eq_true_2 (x ∈ x :: endpoints));
      [by case_bool_decide|apply list_elem_of_here].
  - rewrite lookup_delete_ne
      by (intros Heq; apply Hne; symmetry; by apply getCacheKey_no_filters_inj).
    repeat case_bool_decide; try done.
    + exfalso. apply H0. by apply list_elem_of_further.
    + apply elem_of_cons in H0 as [?|?]; done.
Qed.

(** How each single-call write continues after a success status. *)
Lemma simple_write_shape (op : WriteOp) (w : World) :
  isUpdateMember op = false ->
  exists req msg,
    runWrite env op w =
    (let* response := remoteFetch env req in
     if negb (ok response) then throw (Error msg)
     else foldr (fun e k => invalidate e [] ;; k) (responseJson response)
                (invalidatedEndpoints op)) w.
Proof.
  destruct op; intros Hop; try done; simpl; eexists _, _; reflexivity.
Qed.

(** X15: when the remote call of a single-call write (every write but
    [updateMember]) comes back with a success status, the store loses
    exactly the keys of the resources the write invalidates and keeps
    every other resource's entry; the operation returns the decoded
    body, or raises when the body does not decode - after the keys were
    already invalidated. *)
Theorem successful_write_invalidates_its_keys
    (op : WriteOp) (w : World) (rq : Request) (resp : HttpResponse) :
  let run := runWrite env op w in
  isUpdateMember op = false ->
  last (traffic run.2) = Some (rq, Resolves resp) ->
  ok resp = true ->
  run.1 = decoded resp
  /\ (forall e, memory run.2 !! getCacheKey e [] =
                if bool_decide (e ∈ invalidatedEndpoints op) then None
                else memory w !! getCacheKey e [])
  /\ listeners run.2 = listeners w.
Proof.
  intros run Hop. subst run.
  destruct (simple_write_shape op w Hop) as (req & msg & ->).
  intros Hlast Hgood.
  destruct (write_succeeded req msg
              (fun response => foldr (fun e k => invalidate e [] ;; k)
                                     (responseJson response) (invalidatedEndpoints op))
              w rq resp) as [elapsed ->]; try done.
  { intros r w1. by rewrite invalidate_then_json. }
  rewrite invalidate_then_json. simpl. split; [done|]. split; [|done].
  intros e. apply fold_delete_lookup.
Qed.

(** An unforced [fetch] of a key that has no entry goes to the remote
    resource. *)
Lemma fetch_absent_calls_remote (endpoint : string) (o : FetchOptions) (w : World) :
  memory w !! getCacheKey endpoint (filters o) = None ->
  traffic (fetch env endpoint o w).2 =
  traffic w ++ [(fetchRequest endpoint o,
                 (transport env (length (traffic w)) (fetchRequest endpoint o)).2)].
Proof.
  intros Hnone.
  assert (Hmiss : forceRefresh o = true \/
            (forall e, memory w !! getCacheKey endpoint (filters o) = Some e ->
                       expiresAt e <> 0 /\ now w > expiresAt e)).
  { right. intros e He. congruence. }
  destruct (fetch_miss_unfold env endpoint o w Hmiss) as (w1 & -> & _ & _ & Ht & _ & _).
  destruct (fetch_try_frame env endpoint o w1) as (_ & _ & Ht').
  by rewrite Ht', Ht.
Qed.

(** X16: after a successful single-call write, the next unforced read
    of each resource it invalidates ([getMembers()], [getTransactions()],
    [getLoans()] are such reads) issues a remote call instead of
    answering from the store. *)
Theorem write_then_read_refetches
    (op : WriteOp) (w : World) (rq : Request) (resp : HttpResponse)
    (e : string) (o : FetchOptions) :
  let run := runWrite env op w in
  isUpdateMember op = false ->
  last (traffic run.2) = Some (rq, Resolves resp) ->
  ok resp = true ->
  e ∈ invalidatedEndpoints op ->
  filters o = [] ->
  traffic (fetch env e o run.2).2 =
  traffic run.2 ++ [(fetchRequest e o,
                     (transport env (length (traffic run.2)) (fetchRequest e o)).2)].
Proof.
  intros run Hop Hlast Hgood He Hfilters.
  apply fetch_absent_calls_remote. rewrite Hfilters.
  subst run. revert Hlast.
  destruct (simple_write_shape op w Hop) as (req & msg & ->).
  intros Hlast.
  destruct (write_succeeded req msg
              (fun response => foldr (fun e k => invalidate e [] ;; k)
                                     (responseJson response) (invalidatedEndpoints op))
              w rq resp) as [elapsed ->]; try done.
  { intros r w1. by rewrite invalidate_then_json. }
  rewrite invalidate_then_json. simpl. rewrite fold_delete_lookup.
  by rewrite bool_decide_eq_true_2.
Qed.

(** X17: [addDeletedMember] makes exactly one remote call and, unlike
    the other writes, leaves the store as it is whatever the outcome:
    no cache key is invalidated even on success. *)
Theorem addDeletedMember_never_touches_cache (d : JsValue) (w : World) :
  let run := addDeletedMember env d w in
  memory run.2 = memory w
  /\ listeners run.2 = listeners w
  /\ fired run.2 = fired w
  /\ length (traffic run.2) = S (length (traffic w)).
Proof.
  intros run. subst run. unfold addDeletedMember, bind, remoteFetch.
  destruct (transport env _ _) as [elapsed [reason|r]]; simpl.
  - rewrite length_app. simpl. repeat split; lia.
  - destruct (ok r); simpl.
    + unfold responseJson. destruct (json r); simpl;
        rewrite length_app; simpl; repeat split; lia.
    + rewrite length_app. simpl. repeat split; lia.
Qed.

End MoreWriteFacts.

Section UpdateMemberFacts.
Context (env : Env).

Lemma lookupProp_setProp (k n : string) (v : JsValue) (props : list (string * JsValue)) :
  lookupProp k (setProp n v props) = if String.eqb n k then v else lookupProp k props.
Proof.
  induction props as [|[k' v'] props IH]; simpl.
  - done.
  - destruct (String.eqb k' n) eqn:Hn; simpl.
    + apply String.eqb_eq in Hn as ->. by destruct (String.eqb n k).
    + rewrite IH. destruct (String.eqb k' k) eqn:Hk; [|done].
      apply String.eqb_eq in Hk. subst k'. by rewrite String.eqb_sym, Hn.
Qed.

Lemma lookupProp_spread (k : string) (props updates : list (string * JsValue)) :
  NoDup (map fst updates) ->
  lookupProp k (spread props updates) =
  if bool_decide (k ∈ map fst updates) then lookupProp k updates else lookupProp k props.
Proof.
  unfold spread. revert props.
  induction updates as [|[n v] updates IH]; intros props Hnd; simpl; [done|].
  simpl in Hnd. apply NoDup_cons in Hnd as [Hn Hnd].
  rewrite IH by done. rewrite lookupProp_setProp.
  destruct (String.eqb n k) eqn:Hnk.
  - apply String.eqb_eq in Hnk as ->.
    rewrite (bool_decide_eq_false_2 (k ∈ map fst updates)) by done.
    by rewrite (bool_decide_eq_true_2 (k ∈ k :: map fst updates)) by apply list_elem_of_here.
  - apply String.eqb_neq in Hnk.
    repeat case_bool_decide; try done.
    + exfalso. apply H0. by apply list_elem_of_further.
    + apply elem_of_cons in H0 as [?|?]; [congruence|done].
Qed.

(** [getMembers(true)] never changes the subscribers. *)
Lemma getMembers_forced_listeners (w : World) :
  listeners (getMembers env true w).2 = listeners w.
Proof.
  unfold getMembers.
  destruct (fetch_miss_unfold env ENDPOINTS_MEMBERS membersForced w (or_introl eq_refl))
    as (w1 & Hrun & Hl & _ & _ & _ & _).
  change (fetch env ENDPOINTS_MEMBERS membersForced w) with
    (fetch env ENDPOINTS_MEMBERS
       {| ttl := CACHE_TTL_MEMBERS; forceRefresh := true; filters := [];
          method := "GET"; body := JNull |} w) in Hrun.
  rewrite Hrun.
  destruct (fetch_try_frame env ENDPOINTS_MEMBERS membersForced w1) as (Hl' & _ & _).
  by rewrite Hl', Hl.
Qed.

(** X18: the request [updateMember] sends for a found record is a PUT
    to the record's [Id] on the member sheet whose body holds the record
    merged with the updates: every field named in [updates] carries the
    update's value and every other field keeps the record's value. *)
Theorem updateMember_body_merges
    (props updates : list (string * JsValue)) :
  NoDup (map fst updates) ->
  exists merged,
    updateMemberRequest (JObj props) updates =
    Return {| url := BASE_URL +:+ "/Id/" +:+ toString (lookupProp "Id" props)
                     +:+ "?sheet=Member List";
              reqMethod := "PUT"; headers := jsonHeaders;
              reqBody := Some (JObj [("data", JObj merged)]) |}
    /\ forall k,
         lookupProp k merged =
         if bool_decide (k ∈ map fst updates) then lookupProp k updates
         else lookupProp k props.
Proof.
  intros Hnd. exists (spread props updates). split; [done|].
  intros k. by apply lookupProp_spread.
Qed.

(** X19: when the forced member read returns a list whose first record
    named [memberName] has a truthy [Id] and the write comes back with a
    success status, [updateMember] has made exactly two remote calls, the
    members key is gone from the store the read left, every other key is
    as the read left it, and the decoded body is returned. *)
Theorem updateMember_success
    (memberName : string) (updates : list (string * JsValue))
    (w w1 : World) (pre post : list JsValue) (props : list (string * JsValue))
    (req : Request) (elapsed : Z) (resp : HttpResponse) :
  getMembers env true w = (Return (JArr (pre ++ JObj props :: post)), w1) ->
  (forall x, x ∈ pre -> nameIs memberName x = Return false) ->
  lookupProp "Name" props = JStr memberName ->
  truthy (lookupProp "Id" props) = true ->
  updateMemberRequest (JObj props) updates = Return req ->
  transport env (length (traffic w1)) req = (elapsed, Resolves resp) ->
  ok resp = true ->
  exists w2,
    updateMember env memberName updates w = (decoded resp, w2)
    /\ memory w2 = delete membersKey (memory w1)
    /\ (exists res,
          traffic w2 = traffic w ++
            [(fetchRequest ENDPOINTS_MEMBERS membersForced, res); (req, Resolves resp)])
    /\ listeners w2 = listeners w.
Proof.
  intros Hget Hpre Hname Hid Hreq Hnet Hok.
  destruct (fetch_forced_returns env ENDPOINTS_MEMBERS membersForced w w1
              (Return (JArr (pre ++ JObj props :: post))) eq_refl Hget)
    as ((res & Htraffic & _) & _ & _).
  pose proof (getMembers_forced_listeners w) as Hl.
  rewrite Hget in Hl. simpl in Hl.
  exists (setMemory (delete membersKey (memory w1)) (recordCall req elapsed (Resolves resp) w1)).
  split.
  - rewrite updateMember_unfold, Hget. simpl.
    rewrite findM_first; [|done|].
    2: { unfold nameIs. simpl. rewrite Hname. simpl. by rewrite String.eqb_refl. }
    cbn -[updateMemberRequest]. rewrite Hid. cbn -[updateMemberRequest]. rewrite Hreq.
    unfold bind, remoteFetch. rewrite Hnet. simpl. rewrite Hok. simpl.
    unfold invalidate, responseJson, decoded. simpl. by destruct (json resp).
  - split; [done|]. split; [|done].
    exists res. simpl. rewrite Htraffic. by rewrite <- app_assoc.
Qed.

End UpdateMemberFacts.

(** ** Local views of the cached lists *)

Section LocalViews.
Context (env : Env).

Lemma nameIs_object (memberName : string) (m : JsValue) :
  isObject m -> nameIs memberName m = Return (holds (nameIs memberName m)).
Proof.
  intros [props ->]. unfold nameIs, holds. simpl.
  by destruct (strictEqString _ _).
Qed.

Lemma filterM_objects (memberName : string) (ms : list JsValue) :
  Forall isObject ms ->
  filterM (nameIs memberName) ms =
  Return (List.filter (fun m => holds (nameIs memberName m)) ms).
Proof.
  induction 1 as [|m ms Hm Hms IH]; simpl; [done|].
  rewrite (nameIs_object memberName m Hm), IH. simpl.
  by destruct (holds (nameIs memberName m)).
Qed.

Lemma findM_objects (memberName : string) (ms : list JsValue) :
  Forall isObject ms ->
  findM (nameIs memberName) ms =
  Return (default JUndefined
            (head (List.filter (fun m => holds (nameIs memberName m)) ms))).
Proof.
  induction 1 as [|m ms Hm Hms IH]; simpl; [done|].
  rewrite (nameIs_object memberName m Hm). simpl.
  by destruct (holds (nameIs memberName m)).
Qed.

(** X20: over a cached transaction list of records, [searchTransactions]
    with a non-empty name returns exactly the records whose [Name] is
    that string, in cached order; with the empty name it returns the
    whole list. *)
Theorem searchTransactions_exact_match
    (memberName : string) (w : World) (e : CacheEntry) (ms : list JsValue) :
  memory w !! transactionsKey = Some e ->
  data e = JArr ms ->
  Forall isObject ms ->
  searchTransactions memberName w =
  (Return (JArr (if String.eqb memberName "" then ms
                 else List.filter (fun m => holds (nameIs memberName m)) ms)), w).
Proof.
  intros Hentry Hdata Hobjects.
  unfold searchTransactions, bind, getCached. fold transactionsKey.
  rewrite Hentry, Hdata. simpl.
  destruct (String.eqb memberName ""); simpl; [done|].
  unfold liftOutcome. simpl. by rewrite filterM_objects.
Qed.

(** X21: over a cached loan list of records, [getLoansByMember] returns
    the records whose [Name] is the given string, in cached order, and
    [getLoanByMember] returns the first of them, or [undefined] when
    there is none. *)
Theorem getLoanByMember_is_first_match
    (memberName : string) (w : World) (e : CacheEntry) (ms : list JsValue) :
  let matches := List.filter (fun m => holds (nameIs memberName m)) ms in
  memory w !! loansKey = Some e ->
  data e = JArr ms ->
  Forall isObject ms ->
  getLoansByMember memberName w = (Return (JArr matches), w)
  /\ getLoanByMember memberName w = (Return (default JUndefined (head matches)), w).
Proof.
  intros matches Hentry Hdata Hobjects. subst matches.
  unfold getLoansByMember, getLoanByMember, bind, getCached. fold loansKey.
  rewrite Hentry, Hdata. simpl. unfold liftOutcome. simpl.
  by rewrite filterM_objects, findM_objects.
Qed.

(** X22: the four local views never call the remote resource and never
    change the state, whatever is cached and whatever they return or
    raise. *)
Theorem local_views_are_read_only (query memberName : string) (w : World) :
  (searchMembers env query w).2 = w
  /\ (searchTransactions memberName w).2 = w
  /\ (getLoanByMember memberName w).2 = w
  /\ (getLoansByMember memberName w).2 = w.
Proof.
  unfold searchMembers, searchTransactions, getLoanByMember, getLoansByMember,
    bind, getCached, liftOutcome, ret.
  repeat split.
  - destruct (memory w !! _) as [e|]; simpl; [|done].
    destruct (negb (truthy (data e))); [done|].
    by destruct (negb (negb (String.eqb query ""))).
  - destruct (memory w !! _) as [e|]; simpl; [|done].
    destruct (negb (truthy (data e))); [done|].
    by destruct (negb (negb (String.eqb memberName ""))).
  - destruct (memory w !! _) as [e|]; simpl; [|done].
    by destruct (negb (truthy (data e))).
  - destruct (memory w !! _) as [e|]; simpl; [|done].
    by destruct (negb (truthy (data e))).
Qed.

(** X23: after [clearCache] nothing is cached: the list views return
    the empty list, [getLoanByMember] returns [null], and the
    subscribers are kept. *)
Theorem clearCache_empties_local_views (query memberName : string) (w : World) :
  let w0 := (clearCache w).2 in
  memory w0 = ∅
  /\ listeners w0 = listeners w
  /\ searchMembers env query w0 = (Return (JArr []), w0)
  /\ searchTransactions memberName w0 = (Return (JArr []), w0)
  /\ getLoansByMember memberName w0 = (Return (JArr []), w0)
  /\ getLoanByMember memberName w0 = (Return JNull, w0).
Proof.
  intros w0. subst w0.
  unfold searchMembers, searchTransactions, getLoanByMember, getLoansByMember,
    bind, getCached. simpl. by rewrite !lookup_empty.
Qed.

End LocalViews.

(** ** Concrete runs of the further properties *)

Lemma successful_write_invalidates_its_keys_witness :
  let env := scripted [(5, okResponse (JObj [("deleted", JNum 1)]))] [] in
  let op := DeleteMember "Bob" in
  let run := runWrite env op cachedWorld in
  let rq := {| url := BASE_URL +:+ "/Name/" +:+ "Bob" +:+ "?sheet=Member List";
               reqMethod := "DELETE"; headers := []; reqBody := None |} in
  let resp := okHttp (JObj [("deleted", JNum 1)]) in
  last (traffic run.2) = Some (rq, Resolves resp)
  /\ run.1 = decoded resp
  /\ (forall e, memory run.2 !! getCacheKey e [] =
                if bool_decide (e ∈ invalidatedEndpoints op) then None
                else memory cachedWorld !! getCacheKey e [])
  /\ listeners run.2 = listeners cachedWorld.
Proof.
  intros env op run rq resp.
  assert (H1 : last (traffic run.2) = Some (rq, Resolves resp)) by reflexivity.
  split; [exact H1|].
  exact (successful_write_invalidates_its_keys env op cachedWorld rq resp eq_refl H1 eq_refl).
Defined.

Lemma write_then_read_refetches_witness :
  let env := scripted [(5, okResponse (JObj [("created", JNum 1)]));
                       (7, okResponse (JArr [bobLoan]))] [] in
  let op := AddLoan bobLoan in
  let run := runWrite env op cachedWorld in
  let rq := {| url := ENDPOINTS_LOANS; reqMethod := "POST"; headers := jsonHeaders;
               reqBody := Some (dataRows bobLoan) |} in
  let resp := okHttp (JObj [("created", JNum 1)]) in
  let o := {| ttl := CACHE_TTL_LOANS; forceRefresh := false; filters := [];
              method := "GET"; body := JNull |} in
  last (traffic run.2) = Some (rq, Resolves resp)
  /\ ENDPOINTS_LOANS ∈ invalidatedEndpoints op
  /\ traffic (getLoans env false run.2).2 =
     traffic run.2 ++
       [(fetchRequest ENDPOINTS_LOANS o,
         (transport env (length (traffic run.2)) (fetchRequest ENDPOINTS_LOANS o)).2)].
Proof.
  intros env op run rq resp o.
  assert (H1 : last (traffic run.2) = Some (rq, Resolves resp)) by reflexivity.
  assert (H2 : ENDPOINTS_LOANS ∈ invalidatedEndpoints op) by apply list_elem_of_here.
  split; [exact H1|]. split; [exact H2|].
  exact (write_then_read_refetches env op cachedWorld rq resp ENDPOINTS_LOANS o
           eq_refl H1 eq_refl H2 eq_refl).
Defined.

Lemma updateMember_body_merges_witness :
  let props := [("Id", JStr "1"); ("Name", JStr "Alice"); ("Status", JStr "Active")] in
  let updates := [("Status", JStr "Inactive")] in
  NoDup (map fst updates)
  /\ exists merged,
       updateMemberRequest (JObj props) updates =
       Return {| url := BASE_URL +:+ "/Id/" +:+ toString (lookupProp "Id" props)
                        +:+ "?sheet=Member List";
                 reqMethod := "PUT"; headers := jsonHeaders;
                 reqBody := Some (JObj [("data", JObj merged)]) |}
       /\ forall k,
            lookupProp k merged =
            if bool_decide (k ∈ map fst updates) then lookupProp k updates
            else lookupProp k props.
Proof.
  intros props updates.
  assert (H1 : NoDup (map fst updates)) by apply NoDup_singleton.
  split; [exact H1|].
  exact (updateMember_body_merges props updates H1).
Defined.

Lemma updateMember_success_witness :
  let env := scripted [(5, okResponse (JArr [bob; alice]));
                       (7, okResponse (JObj [("updated", JNum 1)]))] [] in
  let props := [("Id", JStr "1"); ("Name", JStr "Alice"); ("Status", JStr "Active")] in
  let updates := [("Status", JStr "Inactive")] in
  let w1 := (getMembers env true emptyWorld).2 in
  let req := {| url := BASE_URL +:+ "/Id/" +:+ "1" +:+ "?sheet=Member List";
                reqMethod := "PUT"; headers := jsonHeaders;
                reqBody := Some (dataRow (JObj (spread props updates))) |} in
  let resp := okHttp (JObj [("updated", JNum 1)]) in
  getMembers env true emptyWorld = (Return (JArr ([bob] ++ JObj props :: [])), w1)
  /\ (forall x, x ∈ [bob] -> nameIs "Alice" x = Return false)
  /\ transport env (length (traffic w1)) req = (7, Resolves resp)
  /\ exists w2,
       updateMember env "Alice" updates emptyWorld = (decoded resp, w2)
       /\ memory w2 = delete membersKey (memory w1)
       /\ (exists res,
             traffic w2 = traffic emptyWorld ++
               [(fetchRequest ENDPOINTS_MEMBERS membersForced, res); (req, Resolves resp)])
       /\ listeners w2 = listeners emptyWorld.
Proof.
  intros env props updates w1 req resp.
  assert (H1 : getMembers env true emptyWorld
               = (Return (JArr ([bob] ++ JObj props :: [])), w1)) by reflexivity.
  assert (H2 : forall x, x ∈ [bob] -> nameIs "Alice" x = Return false).
  { intros x Hx. apply elem_of_cons in Hx as [->|Hx]; [reflexivity|].
    by apply elem_of_nil in Hx. }
  assert (H3 : transport env (length (traffic w1)) req = (7, Resolves resp))
    by reflexivity.
  split; [exact H1|]. split; [exact H2|]. split; [exact H3|].
  exact (updateMember_success env "Alice" updates emptyWorld w1 [bob] [] props req 7 resp
           H1 H2 eq_refl eq_refl eq_refl H3 eq_refl).
Defined.

Lemma searchTransactions_exact_match_witness :
  let e := {| data := JArr [bobPayment]; expiresAt := CACHE_TTL_TRANSACTIONS |} in
  memory cachedWorld !! transactionsKey = Some e
  /\ Forall isObject [bobPayment]
  /\ searchTransactions "Bob" cachedWorld = (Return (JArr [bobPayment]), cachedWorld)
  /\ searchTransactions "Alice" cachedWorld = (Return (JArr []), cachedWorld).
Proof.
  intros e.
  assert (H1 : memory cachedWorld !! transactionsKey = Some e) by reflexivity.
  assert (H2 : Forall isObject [bobPayment]).
  { constructor; [|constructor]. by eexists. }
  split; [exact H1|]. split; [exact H2|]. split.
  - exact (searchTransactions_exact_match "Bob" cachedWorld e [bobPayment] H1 eq_refl H2).
  - exact (searchTransactions_exact_match "Alice" cachedWorld e [bobPayment] H1 eq_refl H2).
Defined.

Lemma getLoanByMember_is_first_match_witness :
  let e := {| data := JArr [bobLoan]; expiresAt := CACHE_TTL_LOANS |} in
  memory cachedWorld !! loansKey = Some e
  /\ Forall isObject [bobLoan]
  /\ getLoansByMember "Bob" cachedWorld = (Return (JArr [bobLoan]), cachedWorld)
  /\ getLoanByMember "Bob" cachedWorld = (Return bobLoan, cachedWorld).
Proof.
  intros e.
  assert (H1 : memory cachedWorld !! loansKey = Some e) by reflexivity.
  assert (H2 : Forall isObject [bobLoan]).
  { constructor; [|constructor]. by eexists. }
  split; [exact H1|]. split; [exact H2|].
  exact (getLoanByMember_is_first_match "Bob" cachedWorld e [bobLoan] H1 eq_refl H2).
Defined.
